(** * RANDOM_GEN: the mixing pipeline of [random_api.py]

    A shallow embedding of the derivation pipeline of [random_api.py]
    (functions [shake_hash], [remove_random_chars], [multiply_by_random],
    [add_random], [repeated_hashing], [sqrt_and_divide], [shuffle_string]
    and [pipeline]) together with the Python built-ins it relies on.

    Python integers are unbounded, hence [Z].  [bytes] objects are
    [list byte], [str] objects are [list ascii].  A Python exception is a
    value of [exn] returned on the left of a sum.  The two sources of
    randomness ([secrets] and [random]) are tapes of raw draws that are
    read at a position kept in the state, so that the number of draws
    made by a computation can be observed.

    [hexdigest] is modelled with the two ways in which the call itself
    refuses a length: the conversion of the length to a C [ssize_t], and
    the allocation of the digest, granted up to a [capacity] that is a
    parameter of the development.  Memory exhaustion anywhere else is
    outside the model. *)

From Stdlib Require Import ZArith Lia Ascii.
From Stdlib Require Strings.Byte.
From Stdlib Require Import String.
From stdpp Require Import base tactics list strings gmap.

Local Open Scope Z_scope.

Abbreviation byte := Corelib.Init.Byte.byte.
Abbreviation str := (list ascii).

(** ** Python built-ins *)

Module Py.

(** The exceptions the modelled code can raise. *)
Inductive exn : Set :=
| ValueError
| OverflowError
| ZeroDivisionError
| IndexError
| MemoryError.

Definition result (A : Type) : Type := exn + A.

Definition ok {A} (a : A) : result A := inr a.
Definition raise {A} (e : exn) : result A := inl e.

Definition rbind {A B} (r : result A) (k : A -> result B) : result B :=
  match r with
  | inl e => inl e
  | inr a => k a
  end.

(** [len(x)] as a Python integer. *)
Definition len {A} (l : list A) : Z := Z.of_nat (length l).

(** [range(n)] runs [n] times, and not at all when [n <= 0]. *)
Definition range_count (n : Z) : nat := Z.to_nat n.

(** [a // b] on integers. *)
Definition floordiv (a b : Z) : result Z :=
  if b =? 0 then raise ZeroDivisionError else ok (a / b).

(** [math.isqrt(n)]. *)
Definition isqrt (n : Z) : result Z :=
  if n <? 0 then raise ValueError else ok (Z.sqrt n).

(** [n.bit_length()]: the number of bits of [|n|], zero for [0]. *)
Definition bit_length (n : Z) : Z :=
  if n =? 0 then 0 else Z.log2 (Z.abs n) + 1.

Definition byte_of_Z (z : Z) : byte :=
  match Byte.of_N (Z.to_N (z mod 256)) with
  | Some b => b
  | None => Corelib.Init.Byte.x00
  end.

Definition Z_of_byte (b : byte) : Z := Z.of_N (Byte.to_N b).

(** The [n] low-order base-256 digits of [v], most significant first. *)
Fixpoint be_bytes (n : nat) (v : Z) : list byte :=
  match n with
  | O => []
  | S k => be_bytes k (v / 256) ++ [byte_of_Z v]
  end.

(** [v.to_bytes(length, "big")] (unsigned). *)
Definition to_bytes (v : Z) (length : Z) : result (list byte) :=
  if length <? 0 then raise ValueError
  else if v <? 0 then raise OverflowError
  else if 256 ^ length <=? v then raise OverflowError
  else ok (be_bytes (Z.to_nat length) v).

(** [int.from_bytes(bs, "big")]. *)
Definition from_bytes (bs : list byte) : Z :=
  fold_left (fun acc b => acc * 256 + Z_of_byte b) bs 0.

Definition code (c : ascii) : Z := Z.of_N (N_of_ascii c).

(** The lowercase hexadecimal digit of [d], for [0 <= d < 16]. *)
Definition hex_digit (d : Z) : ascii :=
  ascii_of_N (Z.to_N (if d <? 10 then 48 + d else 87 + d)).

(** The value of a hexadecimal digit, either case. *)
Definition hex_val (c : ascii) : option Z :=
  let n := code c in
  if (48 <=? n) && (n <=? 57) then Some (n - 48)
  else if (97 <=? n) && (n <=? 102) then Some (n - 87)
  else if (65 <=? n) && (n <=? 70) then Some (n - 55)
  else None.

Definition is_lower_hex (c : ascii) : bool :=
  let n := code c in
  ((48 <=? n) && (n <=? 57)) || ((97 <=? n) && (n <=? 102)).

(** [bs.hex()]: two lowercase digits per byte. *)
Definition hexlify (bs : list byte) : str :=
  flat_map (fun b => [hex_digit (Z_of_byte b / 16); hex_digit (Z_of_byte b mod 16)]) bs.

Fixpoint parse_hex (acc : Z) (s : str) : option Z :=
  match s with
  | [] => Some acc
  | c :: s' =>
      match hex_val c with
      | Some d => parse_hex (acc * 16 + d) s'
      | None => None
      end
  end.

(** [int(s, 16)] on strings of digits.  The empty string and any string
    holding a character that is not a hexadecimal digit raise
    [ValueError].  (Python also accepts a sign, a [0x] prefix,
    underscores and surrounding blanks; the pipeline only ever passes
    pieces of digests, which hold none of these.) *)
Definition int16 (s : str) : result Z :=
  match s with
  | [] => raise ValueError
  | _ =>
      match parse_hex 0 s with
      | Some v => ok v
      | None => raise ValueError
      end
  end.

(** [bytes.fromhex(s)] on strings without blanks: two digits per byte,
    [ValueError] on an odd number of digits or on any other character. *)
Fixpoint fromhex (s : str) : result (list byte) :=
  match s with
  | [] => ok []
  | c1 :: c2 :: s' =>
      match hex_val c1, hex_val c2 with
      | Some a, Some b => rbind (fromhex s') (fun bs => ok (byte_of_Z (16 * a + b) :: bs))
      | _, _ => raise ValueError
      end
  | [_] => raise ValueError
  end.

(** [s[:k]]: the first [k] items, and all but the last [-k] when [k < 0]. *)
Definition slice_to {A} (k : Z) (s : list A) : list A :=
  if k <? 0 then take (Z.to_nat (len s + k)) s else take (Z.to_nat k) s.

(** [lst.pop(idx)], keeping the list only; a negative index counts from
    the end, an index out of range raises [IndexError]. *)
Definition pop {A} (idx : Z) (lst : list A) : result (list A) :=
  if (0 <=? idx) && (idx <? len lst) then ok (delete (Z.to_nat idx) lst)
  else if (- len lst <=? idx) && (idx <? 0) then ok (delete (Z.to_nat (len lst + idx)) lst)
  else raise IndexError.

(** A string of lowercase hexadecimal digits. *)
Definition lower_hex (s : str) : Prop := Forall (fun c => is_lower_hex c = true) s.

End Py.

Import Py.

(** ** The program *)

(** The two SHAKE variants of [hashlib]. *)
Inductive alg : Set := shake_128 | shake_256.

(** The state of the two random sources: how many raw draws were taken
    from [secrets] and from the generator behind [random.shuffle]. *)
Record World : Set := mkWorld { secure_draws : nat; prng_draws : nat }.

Definition M (A : Type) : Type := World -> result A * World.

Definition ret {A} (a : A) : M A := fun w => (ok a, w).

Definition bind {A B} (m : M A) (k : A -> M B) : M B :=
  fun w =>
    match m w with
    | (inl e, w') => (inl e, w')
    | (inr a, w') => k a w'
    end.

(** A computation that draws nothing. *)
Definition lift {A} (r : result A) : M A := fun w => (r, w).

Declare Scope pipe_scope.
Delimit Scope pipe_scope with pipe.
Notation "'let*' x ':=' m 'in' k" := (bind m (fun x => k))
  (at level 10, x pattern, m at level 100, k at level 200) : pipe_scope.

Record PipelineConfig : Set := mkConfig {
  loops : Z;
  mul_times : Z;
  add_times : Z;
  hash1_len : Z;
  hash1_loops : Z;
  hash2_len : Z;
  remove_chars : Z;
  hash4_len : Z;
  final_div : Z
}.

(** The defaults of [pipeline]'s keyword arguments. *)
Definition default_config : PipelineConfig :=
  {| loops := 1; mul_times := 1; add_times := 1; hash1_len := 1024;
     hash1_loops := 10; hash2_len := 512; remove_chars := 10;
     hash4_len := 2048; final_div := 8 |}.

(** [advance s p w]: the state after [s] more draws from [secrets] and
    [p] more draws of the shuffling generator. *)
Definition advance (s p : nat) (w : World) : World :=
  {| secure_draws := secure_draws w + s; prng_draws := prng_draws w + p |}.

(** The number of characters [remove_random_chars s n] deletes. *)
Definition removed (s : str) (n : Z) : nat := Z.to_nat (Z.min n (len s)).

(** Draws of one complete pass: from [secrets] (the multiplications, the
    additions, the deletions and the 16-bit factor) and from the
    shuffling generator (one per exchanged position of [h4]). *)
Definition secure_per_pass (cfg : PipelineConfig) : nat :=
  Z.to_nat (mul_times cfg) + Z.to_nat (add_times cfg) + Z.to_nat (remove_chars cfg) + 1.

Definition prng_per_pass (cfg : PipelineConfig) : nat :=
  Z.to_nat (2 * (hash1_len cfg / 2)) - 1.

(** The configurations the specification accepts: positive pass and
    repetition counts, positive even digest lengths, and a divisor that
    is not zero.  [remove_chars] is left free. *)
Definition even_positive (n : Z) : bool := (0 <? n) && Z.even n.

Definition valid_shape (cfg : PipelineConfig) : bool :=
  (0 <? loops cfg) && (0 <? mul_times cfg) && (0 <? add_times cfg) &&
  (0 <? hash1_loops cfg) && even_positive (hash1_len cfg) &&
  even_positive (hash2_len cfg) && even_positive (hash4_len cfg).

Definition valid_config (cfg : PipelineConfig) : bool :=
  valid_shape cfg && negb (final_div cfg =? 0).

(** ** Sample entropy, a sample XOF and sample configurations

    They are used to run the model on concrete inputs. *)

(** Raw draws of a sample tape. *)
Definition sample_tape (i : nat) : Z := 7919 * Z.of_nat i + 12345.

(** A sample output stream: byte [i] of the digest of [data]. *)
Definition sample_squeeze (a : alg) (data : list byte) (i : nat) : byte :=
  byte_of_Z (from_bytes data + 31 * Z.of_nat i
             + match a with shake_128 => 7 | shake_256 => 101 end).

(** A sample allocation limit. *)
Definition sample_capacity : N := 4096.

Definition w0 : World := {| secure_draws := 0; prng_draws := 0 |}.

Definition cfg_small : PipelineConfig :=
  {| loops := 2; mul_times := 1; add_times := 1; hash1_len := 8;
     hash1_loops := 3; hash2_len := 4; remove_chars := 1;
     hash4_len := 6; final_div := 8 |}.

(** The default [remove_chars = 10] with a digest of two characters. *)
Definition cfg_short_digest : PipelineConfig :=
  {| loops := 1; mul_times := 1; add_times := 1; hash1_len := 8;
     hash1_loops := 2; hash2_len := 2; remove_chars := 10;
     hash4_len := 8; final_div := 8 |}.

Definition cfg_zero_div : PipelineConfig :=
  {| loops := 1; mul_times := 1; add_times := 1; hash1_len := 8;
     hash1_loops := 3; hash2_len := 4; remove_chars := 1;
     hash4_len := 6; final_div := 0 |}.

Definition cfg_remove_all : PipelineConfig :=
  {| loops := 1; mul_times := 2; add_times := 1; hash1_len := 16;
     hash1_loops := 1; hash2_len := 4; remove_chars := 4;
     hash4_len := 6; final_div := 3 |}.

Definition cfg_no_add : PipelineConfig :=
  {| loops := 1; mul_times := 2; add_times := 0; hash1_len := 8;
     hash1_loops := 3; hash2_len := 4; remove_chars := 1;
     hash4_len := 6; final_div := 8 |}.

Definition cfg_no_loops : PipelineConfig :=
  {| loops := 0; mul_times := 1; add_times := 1; hash1_len := 1024;
     hash1_loops := 10; hash2_len := 512; remove_chars := 10;
     hash4_len := 2048; final_div := 0 |}.

Section Pipeline.

(** Raw draws behind [secrets.randbelow] and behind [random.shuffle]. *)
Variable entropy : nat -> Z.
Variable twister : nat -> Z.

(** The output stream of each XOF variant: [squeeze a data i] is byte
    [i] of the unbounded digest of [data]. *)
Variable squeeze : alg -> list byte -> nat -> byte.

(** The largest digest, in bytes, that the allocator grants to one
    [hexdigest] call. *)
Variable capacity : N.

(** [secrets.randbelow(n)]. *)
Definition randbelow (n : Z) : M Z :=
  fun w =>
    if n <=? 0 then (raise ValueError, w)
    else (ok (entropy (secure_draws w) mod n),
          {| secure_draws := S (secure_draws w); prng_draws := prng_draws w |}).

(** The bounded draw inside [random.shuffle]. *)
Definition prng_below (n : Z) : M Z :=
  fun w =>
    if n <=? 0 then (raise ValueError, w)
    else (ok (twister (prng_draws w) mod n),
          {| secure_draws := secure_draws w; prng_draws := S (prng_draws w) |}).

(** [hashlib.shake_*(data).digest(n)]: the first [n] bytes of the stream. *)
Definition digest (a : alg) (data : list byte) (n : nat) : list byte :=
  map (squeeze a data) (seq 0 n).

(** [hashlib.shake_*(data).hexdigest(n)].  The length is converted to a
    C [ssize_t], which raises [OverflowError] outside [-2^63, 2^63);
    the buffer of a negative length, or of more than [capacity] bytes,
    cannot be allocated, which raises [MemoryError]. *)
Definition hexdigest (a : alg) (data : list byte) (n : Z) : result str :=
  if (n <? - 2 ^ 63) || (2 ^ 63 <=? n) then raise OverflowError
  else if (n <? 0) || (Z.of_N capacity <? n) then raise MemoryError
  else ok (hexlify (digest a data (Z.to_nat n))).

(** The requested lengths, in hex characters, whose [n // 2] bytes
    [hexdigest] can hold when [n] is not negative. *)
Definition digest_fits (n : Z) : bool :=
  (n / 2 <? 2 ^ 63) && (n / 2 <=? Z.of_N capacity).

Definition shake_hash (data : list byte) (out_len_chars : Z) (a : alg) : result str :=
  let out_len_bytes := out_len_chars / 2 in
  match a with
  | shake_128 => hexdigest shake_128 data out_len_bytes
  | shake_256 => hexdigest shake_256 data out_len_bytes
  end.

Fixpoint remove_loop (k : nat) (lst : str) : M str :=
  match k with
  | O => ret lst
  | S k' =>
      (let* idx := randbelow (len lst) in
       let* lst' := lift (pop idx lst) in
       remove_loop k' lst')%pipe
  end.

Definition remove_random_chars (s : str) (n : Z) : M str :=
  remove_loop (range_count (Z.min n (len s))) s.

Fixpoint multiply_loop (k : nat) (value : Z) : M Z :=
  match k with
  | O => ret value
  | S k' => (let* r := randbelow (Z.shiftl 1 32) in multiply_loop k' (value * (r + 1)))%pipe
  end.

Definition multiply_by_random (value times : Z) : M Z :=
  multiply_loop (range_count times) value.

Fixpoint add_loop (k : nat) (value : Z) : M Z :=
  match k with
  | O => ret value
  | S k' => (let* r := randbelow (Z.shiftl 1 32) in add_loop k' (value + r))%pipe
  end.

Definition add_random (value times : Z) : M Z :=
  add_loop (range_count times) value.

(** The encoding written out before every hash:
    [byte_len = max((value.bit_length() + 7) // 8, 1)] followed by
    [value.to_bytes(byte_len, "big")]. *)
Definition byte_len (value : Z) : Z := Z.max ((bit_length value + 7) / 8) 1.

Definition encode (value : Z) : result (list byte) :=
  to_bytes value (byte_len value).

Fixpoint hashing_loop (k : nat) (value hash_len_chars : Z) (a : alg) : result Z :=
  match k with
  | O => ok value
  | S k' =>
      rbind (encode value) (fun bs =>
      rbind (shake_hash bs hash_len_chars a) (fun h =>
      rbind (int16 h) (fun value' =>
      hashing_loop k' value' hash_len_chars a)))
  end.

Definition repeated_hashing (value hash_len_chars loops : Z) (a : alg) : result Z :=
  hashing_loop (range_count loops) value hash_len_chars a.

Definition sqrt_and_divide (value divisor : Z) : result Z :=
  rbind (isqrt value) (fun root => floordiv root divisor).

(** [x[i], x[j] = x[j], x[i]] *)
Definition swap {A} (i j : nat) (x : list A) : list A :=
  match x !! i, x !! j with
  | Some xi, Some xj => <[j := xi]> (<[i := xj]> x)
  | _, _ => x
  end.

(** The loop of [random.shuffle]: for [i] from [len(x) - 1] down to [1],
    exchange [x[i]] with [x[j]] for a drawn [j <= i]. *)
Fixpoint shuffle_loop (i : nat) (x : str) : M str :=
  match i with
  | O => ret x
  | S i' =>
      (let* j := prng_below (Z.of_nat i + 1) in
       shuffle_loop i' (swap i (Z.to_nat j) x))%pipe
  end.

Definition shuffle_string (s : str) : M str :=
  shuffle_loop (length s - 1) s.

(** Lines 115-122: shuffle the digest [h4], decode a prefix of it and
    hash the bytes with [shake_128]. *)
Definition shuffle_and_rehash (cfg : PipelineConfig) (h4 : str) : M (str * Z) :=
  (let* shuffled := shuffle_string h4 in
   let* shuffled_bytes := lift (fromhex (slice_to (hash2_len cfg * 2) shuffled)) in
   let* h5 := lift (shake_hash shuffled_bytes (hash2_len cfg) shake_128) in
   let* value := lift (int16 h5) in
   ret (h5, value))%pipe.

(** Lines 124-128: delete characters of [h5], parse what is left and
    multiply it by a drawn 16-bit factor. *)
Definition trim_and_scale (cfg : PipelineConfig) (h5 : str) : M Z :=
  (let* trimmed := remove_random_chars h5 (remove_chars cfg) in
   let* parsed := lift (int16 trimmed) in
   let* r := randbelow (Z.shiftl 1 16) in
   ret (parsed * (r + 1)))%pipe.

(** Lines 91-128 of one pass: everything up to the 16-bit multiplier. *)
Definition mix (cfg : PipelineConfig) (value : Z) : M Z :=
  (let* value := multiply_by_random value (mul_times cfg) in
   let* value := add_random value (add_times cfg) in
   let* value := lift (repeated_hashing value (hash1_len cfg) (hash1_loops cfg) shake_256) in
   let* value := lift (repeated_hashing value (hash2_len cfg) 1 shake_128) in
   let* value := lift (sqrt_and_divide value 4) in
   let* bs := lift (encode value) in
   let* h3 := lift (shake_hash bs (hash1_len cfg) shake_256) in
   let h3_rev := rev h3 in
   let* value := lift (int16 h3_rev) in
   let* bs := lift (encode value) in
   let* h4 := lift (shake_hash bs (hash1_len cfg) shake_256) in
   let* value := lift (int16 h4) in
   let* (h5, value) := shuffle_and_rehash cfg h4 in
   trim_and_scale cfg h5)%pipe.

(** Lines 130-143 of one pass: the last hash, the division, the
    truncation and the reduction modulo 256. *)
Definition reduce (cfg : PipelineConfig) (value : Z) : M Z :=
  (let* bs := lift (encode value) in
   let* h6 := lift (shake_hash bs (hash4_len cfg) shake_256) in
   let* value := lift (int16 h6) in
   let* value := lift (floordiv value (final_div cfg)) in
   let truncated_hex := slice_to 4096 h6 in
   let* value := lift (int16 truncated_hex) in
   ret (value mod 256))%pipe.

(** The body of the [for _ in range(loops)] loop. *)
Definition pass (cfg : PipelineConfig) (value : Z) : M Z :=
  (let* value := mix cfg value in reduce cfg value)%pipe.

Fixpoint passes (body : Z -> M Z) (k : nat) (value : Z) : M Z :=
  match k with
  | O => ret value
  | S k' => (let* value := body value in passes body k' value)%pipe
  end.

Definition pipeline (cfg : PipelineConfig) (initial_value : Z) : M Z :=
  passes (pass cfg) (range_count (loops cfg)) initial_value.

(** *** The pipeline without the division

    The variant the design note describes: the same pass with the
    statement [value //= final_div] left out. *)
Definition reduce_elided (cfg : PipelineConfig) (value : Z) : M Z :=
  (let* bs := lift (encode value) in
   let* h6 := lift (shake_hash bs (hash4_len cfg) shake_256) in
   let* value := lift (int16 h6) in
   let truncated_hex := slice_to 4096 h6 in
   let* value := lift (int16 truncated_hex) in
   ret (value mod 256))%pipe.

Definition pass_elided (cfg : PipelineConfig) (value : Z) : M Z :=
  (let* value := mix cfg value in reduce_elided cfg value)%pipe.

Definition pipeline_elided (cfg : PipelineConfig) (initial_value : Z) : M Z :=
  passes (pass_elided cfg) (range_count (loops cfg)) initial_value.

(** *** The seed endpoint

    [get_random_seed] without the web framework: [data] is the JSON
    object of the request body, already decoded into a dictionary. *)

(** A JSON value as the handler sees it; arrays and objects are not
    looked into. *)
Inductive json : Set :=
| JNull
| JBool (b : bool)
| JNum (n : Z)
| JStr (s : string)
| JNested.

Record HTTPException : Set := mkHTTPException { status_code : Z; detail : string }.

Definition API_KEY : string := "RANDOM_NUM".

(** [key != API_KEY], where [key] is the result of [data.get("key")]:
    [None] and every value that is not a string differ from a string. *)
Definition differs_from (key : option json) (s : string) : bool :=
  match key with
  | Some (JStr k) => negb (String.eqb k s)
  | _ => true
  end.

(** [secrets.randbits(k)]. *)
Definition randbits (k : Z) : M Z :=
  fun w =>
    if k <? 0 then (raise ValueError, w)
    else (ok (entropy (secure_draws w) mod 2 ^ k),
          {| secure_draws := S (secure_draws w); prng_draws := prng_draws w |}).

(** The handler either raises an [HTTPException] or returns the
    dictionary of the response. *)
Definition get_random_seed (data : gmap string json)
  : M (HTTPException + gmap string json) :=
  let key := data !! "key"%string in
  if differs_from key API_KEY then
    ret (inl {| status_code := 403; detail := "Invalid API key" |})
  else
    (let* random_value := randbits 64 in
     ret (inr {[ "random_value"%string := JNum random_value ]}))%pipe.

(** *** Configurations derived from others *)

(** The same keyword arguments with another [loops]. *)
Definition with_loops (n : Z) (cfg : PipelineConfig) : PipelineConfig :=
  {| loops := n; mul_times := mul_times cfg; add_times := add_times cfg;
     hash1_len := hash1_len cfg; hash1_loops := hash1_loops cfg;
     hash2_len := hash2_len cfg; remove_chars := remove_chars cfg;
     hash4_len := hash4_len cfg; final_div := final_div cfg |}.

(** [hexdigest] refuses the length [n // 2]: it is negative or does not
    fit. *)
Definition refused (n : Z) : Prop := ~ (0 <= n /\ digest_fits n = true).

(** The three digest lengths fit. *)
Definition lengths_fit (cfg : PipelineConfig) : bool :=
  digest_fits (hash1_len cfg) && digest_fits (hash2_len cfg) &&
  digest_fits (hash4_len cfg).

(** The configurations on which a pass runs to its end. *)
Definition completes (cfg : PipelineConfig) : bool :=
  (2 <=? hash1_len cfg) && (2 <=? hash2_len cfg) && (2 <=? hash4_len cfg) &&
  lengths_fit cfg &&
  (remove_chars cfg <? 2 * (hash2_len cfg / 2)) && negb (final_div cfg =? 0).

(** The exceptions a pass from a non-negative value can end with. *)
Definition expected_error (cfg : PipelineConfig) (e : exn) : Prop :=
  e = ValueError \/
  (e = ZeroDivisionError /\ final_div cfg = 0) \/
  ((e = OverflowError \/ e = MemoryError) /\
   (refused (hash1_len cfg) \/ refused (hash2_len cfg) \/ refused (hash4_len cfg))).

(** ** Facts about the built-ins *)

Lemma Z_of_byte_range (b : byte) : 0 <= Z_of_byte b < 256.
Proof.
  unfold Z_of_byte. pose proof (Byte.to_N_bounded b). lia.
Qed.

Lemma Z_of_byte_of_Z (z : Z) : Z_of_byte (byte_of_Z z) = z mod 256.
Proof.
  unfold Z_of_byte, byte_of_Z.
  pose proof (Z.mod_pos_bound z 256 eq_refl) as Hz.
  destruct (Byte.of_N (Z.to_N (z mod 256))) as [b|] eqn:E.
  - apply Byte.to_of_N in E. rewrite E. lia.
  - apply Byte.of_N_None_iff in E. lia.
Qed.

Lemma byte_of_Z_of_byte (b : byte) : byte_of_Z (Z_of_byte b) = b.
Proof.
  unfold byte_of_Z. pose proof (Z_of_byte_range b) as Hb.
  rewrite Z.mod_small by lia. unfold Z_of_byte.
  rewrite N2Z.id, Byte.of_to_N. reflexivity.
Qed.

Lemma byte_of_Z_zero (z : Z) : byte_of_Z z = Corelib.Init.Byte.x00 -> z mod 256 = 0.
Proof.
  intros H. rewrite <- Z_of_byte_of_Z, H. reflexivity.
Qed.

Lemma code_range (c : ascii) : 0 <= code c < 256.
Proof. unfold code. pose proof (N_ascii_bounded c). lia. Qed.

Lemma code_hex_digit (d : Z) :
  0 <= d < 16 -> code (hex_digit d) = if d <? 10 then 48 + d else 87 + d.
Proof.
  intros Hd. unfold code, hex_digit.
  rewrite N_ascii_embedding by (destruct (d <? 10) eqn:E; lia).
  destruct (d <? 10); lia.
Qed.

Lemma hex_digit_lower (d : Z) : 0 <= d < 16 -> is_lower_hex (hex_digit d) = true.
Proof.
  intros Hd. unfold is_lower_hex. rewrite code_hex_digit by exact Hd.
  destruct (d <? 10) eqn:E; [apply Z.ltb_lt in E | apply Z.ltb_ge in E].
  - apply orb_true_iff. left. apply andb_true_iff. split; apply Z.leb_le; lia.
  - apply orb_true_iff. right. apply andb_true_iff. split; apply Z.leb_le; lia.
Qed.

Lemma hex_val_hex_digit (d : Z) : 0 <= d < 16 -> hex_val (hex_digit d) = Some d.
Proof.
  intros Hd. unfold hex_val. rewrite code_hex_digit by exact Hd.
  destruct (d <? 10) eqn:E; [apply Z.ltb_lt in E | apply Z.ltb_ge in E].
  - replace ((48 <=? 48 + d) && (48 + d <=? 57)) with true
      by (symmetry; apply andb_true_iff; split; apply Z.leb_le; lia).
    f_equal. lia.
  - replace ((48 <=? 87 + d) && (87 + d <=? 57)) with false
      by (symmetry; apply andb_false_iff; right; apply Z.leb_gt; lia).
    replace ((97 <=? 87 + d) && (87 + d <=? 102)) with true
      by (symmetry; apply andb_true_iff; split; apply Z.leb_le; lia).
    f_equal. lia.
Qed.

Lemma lower_hex_val (c : ascii) :
  is_lower_hex c = true -> exists d, hex_val c = Some d /\ 0 <= d < 16.
Proof.
  unfold is_lower_hex, hex_val. intros H.
  destruct ((48 <=? code c) && (code c <=? 57)) eqn:E1.
  - apply andb_true_iff in E1 as [A B]. apply Z.leb_le in A, B.
    eexists. split; [reflexivity | lia].
  - simpl in H. rewrite H. apply andb_true_iff in H as [A B].
    apply Z.leb_le in A, B. eexists. split; [reflexivity | lia].
Qed.

Lemma hexlify_length (bs : list byte) : length (hexlify bs) = (2 * length bs)%nat.
Proof.
  induction bs as [|b bs IH]; simpl; [reflexivity | rewrite IH; lia].
Qed.

Lemma hexlify_lower (bs : list byte) : lower_hex (hexlify bs).
Proof.
  induction bs as [|b bs IH]; simpl.
  - constructor.
  - pose proof (Z_of_byte_range b) as Hb.
    repeat constructor; try exact IH; apply hex_digit_lower.
    + split; [apply Z.div_pos; lia | apply Z.div_lt_upper_bound; lia].
    + apply Z.mod_pos_bound. lia.
Qed.

Lemma parse_hex_lower (s : str) (acc : Z) :
  lower_hex s -> 0 <= acc ->
  exists v, parse_hex acc s = Some v /\ 0 <= v.
Proof.
  revert acc. induction s as [|c s IH]; intros acc Hs Hacc; simpl.
  - eauto.
  - inversion Hs as [|? ? Hc Hs']; subst.
    destruct (lower_hex_val c Hc) as (d & -> & Hd).
    apply IH; [exact Hs' | lia].
Qed.

Lemma int16_lower (s : str) :
  lower_hex s -> s <> [] -> exists v, int16 s = ok v /\ 0 <= v.
Proof.
  intros Hs Hne. destruct (parse_hex_lower s 0 Hs) as (v & Hv & Hpos); [lia|].
  exists v. split; [|exact Hpos].
  unfold int16. destruct s; [congruence|]. rewrite Hv. reflexivity.
Qed.

Lemma int16_nil : int16 [] = raise ValueError.
Proof. reflexivity. Qed.

Lemma fromhex_lower (n : nat) (s : str) :
  lower_hex s -> length s = (2 * n)%nat ->
  exists bs, fromhex s = ok bs /\ length bs = n.
Proof.
  revert s. induction n as [|n IH]; intros s Hs Hlen.
  - destruct s; [|discriminate]. exists []. split; reflexivity.
  - destruct s as [|c1 [|c2 s]]; try (simpl in Hlen; lia).
    inversion Hs as [|? ? H1 Hs1]; subst. inversion Hs1 as [|? ? H2 Hs2]; subst.
    destruct (lower_hex_val c1 H1) as (a & Ha & _).
    destruct (lower_hex_val c2 H2) as (b & Hb & _).
    destruct (IH s Hs2) as (bs & Hbs & Hl); [simpl in Hlen; lia|].
    exists (byte_of_Z (16 * a + b) :: bs). split.
    + cbn [fromhex]. rewrite Ha, Hb, Hbs. reflexivity.
    + simpl. rewrite Hl. reflexivity.
Qed.

(** ** The byte encoding *)

Lemma pow256 (k : Z) : 0 <= k -> 256 ^ k = 2 ^ (8 * k).
Proof.
  intros Hk. rewrite Z.pow_mul_r by lia. reflexivity.
Qed.

Lemma bit_length_spec (v : Z) :
  0 < v -> 2 ^ (bit_length v - 1) <= v < 2 ^ bit_length v.
Proof.
  intros Hv. unfold bit_length.
  destruct (v =? 0) eqn:E; [apply Z.eqb_eq in E; lia|].
  rewrite Z.abs_eq by lia.
  pose proof (Z.log2_spec v Hv) as H.
  replace (Z.log2 v + 1 - 1) with (Z.log2 v) by lia.
  exact H.
Qed.

Lemma bit_length_pos (v : Z) : 0 < v -> 0 < bit_length v.
Proof.
  intros Hv. unfold bit_length.
  destruct (v =? 0) eqn:E; [apply Z.eqb_eq in E; lia|].
  pose proof (Z.log2_nonneg (Z.abs v)). lia.
Qed.

Lemma byte_len_ceil (v : Z) :
  0 < v ->
  byte_len v = (bit_length v + 7) / 8 /\
  8 * (byte_len v - 1) < bit_length v <= 8 * byte_len v.
Proof.
  intros Hv. pose proof (bit_length_pos v Hv) as Hb. unfold byte_len.
  pose proof (Z.div_mod (bit_length v + 7) 8 ltac:(lia)) as Hd.
  pose proof (Z.mod_pos_bound (bit_length v + 7) 8 ltac:(lia)) as Hm.
  lia.
Qed.

Lemma byte_len_zero : byte_len 0 = 1.
Proof. reflexivity. Qed.

Lemma byte_len_bound (v : Z) : 0 <= v -> v < 256 ^ byte_len v.
Proof.
  intros Hv. destruct (Z.eq_dec v 0) as [->|Hne]; [reflexivity|].
  assert (0 < v) as Hpos by lia.
  destruct (byte_len_ceil v Hpos) as (_ & _ & Hle).
  pose proof (bit_length_spec v Hpos) as [_ Hlt].
  pose proof (bit_length_pos v Hpos).
  rewrite pow256 by lia.
  eapply Z.lt_le_trans; [exact Hlt|].
  apply Z.pow_le_mono_r; lia.
Qed.

Lemma byte_len_tight (v : Z) : 0 < v -> 256 ^ (byte_len v - 1) <= v.
Proof.
  intros Hpos.
  destruct (byte_len_ceil v Hpos) as (_ & Hlt & _).
  pose proof (bit_length_spec v Hpos) as [Hle _].
  assert (1 <= byte_len v) by (unfold byte_len; lia).
  rewrite pow256 by lia.
  eapply Z.le_trans; [|exact Hle].
  apply Z.pow_le_mono_r; lia.
Qed.

Lemma encode_nonneg (v : Z) :
  0 <= v -> encode v = ok (be_bytes (Z.to_nat (byte_len v)) v).
Proof.
  intros Hv. unfold encode, to_bytes.
  assert (1 <= byte_len v) by (unfold byte_len; lia).
  pose proof (byte_len_bound v Hv).
  destruct (byte_len v <? 0) eqn:E1; [apply Z.ltb_lt in E1; lia|].
  destruct (v <? 0) eqn:E2; [apply Z.ltb_lt in E2; lia|].
  destruct (256 ^ byte_len v <=? v) eqn:E3; [apply Z.leb_le in E3; lia|].
  reflexivity.
Qed.

Lemma encode_negative (v : Z) : v < 0 -> encode v = raise OverflowError.
Proof.
  intros Hv. unfold encode, to_bytes.
  assert (1 <= byte_len v) by (unfold byte_len; lia).
  destruct (byte_len v <? 0) eqn:E1; [apply Z.ltb_lt in E1; lia|].
  destruct (v <? 0) eqn:E2; [reflexivity | apply Z.ltb_ge in E2; lia].
Qed.

Lemma be_bytes_length (n : nat) (v : Z) : length (be_bytes n v) = n.
Proof.
  revert v. induction n as [|n IH]; intros v; simpl; [reflexivity|].
  rewrite length_app, IH. simpl. lia.
Qed.

Lemma be_bytes_head (k : nat) (v : Z) :
  be_bytes (S k) v = byte_of_Z (v / 256 ^ Z.of_nat k) :: be_bytes k v.
Proof.
  revert v. induction k as [|k IH]; intros v.
  - simpl. rewrite Z.div_1_r. reflexivity.
  - change (be_bytes (S (S k)) v) with (be_bytes (S k) (v / 256) ++ [byte_of_Z v]).
    rewrite IH. simpl. do 2 f_equal.
    rewrite Z.div_div by (try apply Z.pow_pos_nonneg; lia).
    f_equal. rewrite Nat2Z.inj_succ, Z.pow_succ_r by lia. reflexivity.
Qed.

Lemma from_bytes_snoc (bs : list byte) (b : byte) :
  from_bytes (bs ++ [b]) = from_bytes bs * 256 + Z_of_byte b.
Proof.
  unfold from_bytes. rewrite fold_left_app. reflexivity.
Qed.

Lemma from_bytes_be_bytes (n : nat) (v : Z) :
  from_bytes (be_bytes n v) = v mod 256 ^ Z.of_nat n.
Proof.
  revert v. induction n as [|n IH]; intros v.
  - simpl. rewrite Z.mod_1_r. reflexivity.
  - cbn [be_bytes]. rewrite from_bytes_snoc, IH, Z_of_byte_of_Z.
    rewrite Nat2Z.inj_succ, Z.pow_succ_r by lia.
    assert (0 < 256 ^ Z.of_nat n) by (apply Z.pow_pos_nonneg; lia).
    rewrite (Z.rem_mul_r v 256 (256 ^ Z.of_nat n)) by lia. lia.
Qed.

(** C5. The encoding fed to every hash is the minimal big-endian one:
    [0] becomes the single byte [00]; a positive [v] becomes
    [ceil(bit_length(v) / 8)] bytes that decode back to [v], the first
    of which is not zero, and no shorter length can hold [v]. *)
Theorem encode_minimal_big_endian (v : Z) :
  0 <= v ->
  exists bs,
    encode v = ok bs /\ from_bytes bs = v /\
    (v = 0 -> bs = [Corelib.Init.Byte.x00]) /\
    (0 < v ->
       len bs = (bit_length v + 7) / 8 /\
       8 * (len bs - 1) < bit_length v <= 8 * len bs /\
       (exists b tl, bs = b :: tl /\ b <> Corelib.Init.Byte.x00) /\
       (forall n, n < len bs -> exists e, to_bytes v n = raise e)).
Proof.
  intros Hv. exists (be_bytes (Z.to_nat (byte_len v)) v).
  assert (1 <= byte_len v) as Hk by (unfold byte_len; lia).
  pose proof (byte_len_bound v Hv) as Hub.
  assert (len (be_bytes (Z.to_nat (byte_len v)) v) = byte_len v) as Hlen
    by (unfold len; rewrite be_bytes_length; lia).
  split; [apply encode_nonneg; exact Hv|]. split.
  { rewrite from_bytes_be_bytes, Z2Nat.id by lia. apply Z.mod_small. lia. }
  split.
  { intros ->. reflexivity. }
  intros Hpos. rewrite Hlen.
  destruct (byte_len_ceil v Hpos) as (Hceil & Hrange).
  pose proof (byte_len_tight v Hpos) as Hlb.
  split; [exact Hceil|]. split; [exact Hrange|]. split.
  - replace (Z.to_nat (byte_len v)) with (S (Z.to_nat (byte_len v - 1))) by lia.
    rewrite be_bytes_head. eexists _, _. split; [reflexivity|].
    intros Hz. apply byte_of_Z_zero in Hz.
    rewrite Z2Nat.id in Hz by lia.
    set (p := 256 ^ (byte_len v - 1)) in *.
    assert (0 < p) as Hp by (apply Z.pow_pos_nonneg; lia).
    assert (256 ^ byte_len v = 256 * p) as Hpw.
    { unfold p. rewrite <- Z.pow_succ_r by lia. f_equal. lia. }
    assert (1 <= v / p) by (apply Z.div_le_lower_bound; lia).
    assert (v / p < 256) by (apply Z.div_lt_upper_bound; lia).
    rewrite Z.mod_small in Hz by lia. lia.
  - intros n Hn. unfold to_bytes.
    destruct (n <? 0) eqn:E1; [eexists; reflexivity|]. apply Z.ltb_ge in E1.
    destruct (v <? 0) eqn:E2; [eexists; reflexivity|].
    assert (256 ^ n <= v) as Hov.
    { eapply Z.le_trans; [|exact Hlb]. apply Z.pow_le_mono_r; lia. }
    apply Z.leb_le in Hov. rewrite Hov. eexists; reflexivity.
Qed.

(** ** Running computations *)

Lemma bind_returns {A B} (m : M A) (k : A -> M B) w a w1 :
  m w = (ok a, w1) -> bind m k w = k a w1.
Proof. intros H. unfold bind. rewrite H. reflexivity. Qed.

Lemma bind_raises {A B} (m : M A) (k : A -> M B) w e w1 :
  m w = (raise e, w1) -> bind m k w = (raise e, w1).
Proof. intros H. unfold bind. rewrite H. reflexivity. Qed.

Lemma bind_lift_ok {A B} (a : A) (k : A -> M B) : bind (lift (ok a)) k = k a.
Proof. reflexivity. Qed.

Lemma bind_lift_raise {A B} (e : exn) (k : A -> M B) w :
  bind (lift (raise e)) k w = (raise e, w).
Proof. reflexivity. Qed.

Lemma advance_0 w : advance 0 0 w = w.
Proof. destruct w. unfold advance. simpl. f_equal; lia. Qed.

Lemma advance_advance s1 p1 s2 p2 w :
  advance s2 p2 (advance s1 p1 w) = advance (s1 + s2) (p1 + p2) w.
Proof. unfold advance. simpl. f_equal; lia. Qed.

Lemma advance_eq s1 p1 s2 p2 w :
  s1 = s2 -> p1 = p2 -> advance s1 p1 w = advance s2 p2 w.
Proof. intros -> ->. reflexivity. Qed.

Lemma randbelow_spec (n : Z) w :
  0 < n ->
  exists r, randbelow n w = (ok r, advance 1 0 w) /\ 0 <= r < n.
Proof.
  intros Hn. exists (entropy (secure_draws w) mod n). split.
  - unfold randbelow. destruct (n <=? 0) eqn:E; [apply Z.leb_le in E; lia|].
    unfold advance. do 2 f_equal; lia.
  - apply Z.mod_pos_bound. exact Hn.
Qed.

Lemma prng_below_spec (n : Z) w :
  0 < n ->
  exists r, prng_below n w = (ok r, advance 0 1 w) /\ 0 <= r < n.
Proof.
  intros Hn. exists (twister (prng_draws w) mod n). split.
  - unfold prng_below. destruct (n <=? 0) eqn:E; [apply Z.leb_le in E; lia|].
    unfold advance. do 2 f_equal; lia.
  - apply Z.mod_pos_bound. exact Hn.
Qed.

(** ** The randomized arithmetic *)

Lemma multiply_loop_spec (k : nat) (v : Z) w :
  0 <= v ->
  exists v', multiply_loop k v w = (ok v', advance k 0 w) /\ 0 <= v'.
Proof.
  revert v w. induction k as [|k IH]; intros v w Hv.
  - exists v. rewrite advance_0. split; [reflexivity | exact Hv].
  - destruct (randbelow_spec (Z.shiftl 1 32) w eq_refl) as (r & Hr & Hrange).
    destruct (IH (v * (r + 1)) (advance 1 0 w)) as (v' & Hv' & Hpos); [nia|].
    exists v'. split; [|exact Hpos].
    cbn [multiply_loop]. rewrite (bind_returns _ _ _ _ _ Hr), Hv', advance_advance.
    reflexivity.
Qed.

Lemma add_loop_spec (k : nat) (v : Z) w :
  0 <= v ->
  exists v', add_loop k v w = (ok v', advance k 0 w) /\ 0 <= v'.
Proof.
  revert v w. induction k as [|k IH]; intros v w Hv.
  - exists v. rewrite advance_0. split; [reflexivity | exact Hv].
  - destruct (randbelow_spec (Z.shiftl 1 32) w eq_refl) as (r & Hr & Hrange).
    destruct (IH (v + r) (advance 1 0 w)) as (v' & Hv' & Hpos); [lia|].
    exists v'. split; [|exact Hpos].
    cbn [add_loop]. rewrite (bind_returns _ _ _ _ _ Hr), Hv', advance_advance.
    reflexivity.
Qed.

(** ** The XOF wrapper *)

Lemma digest_length (a : alg) (data : list byte) (n : nat) :
  length (digest a data n) = n.
Proof. unfold digest. rewrite length_map, length_seq. reflexivity. Qed.

Lemma digest_fits_spec (n : Z) :
  digest_fits n = true <-> n / 2 < 2 ^ 63 /\ n / 2 <= Z.of_N capacity.
Proof.
  unfold digest_fits. rewrite andb_true_iff, Z.ltb_lt, Z.leb_le. reflexivity.
Qed.

Lemma lengths_fit_spec (cfg : PipelineConfig) :
  lengths_fit cfg = true <->
  digest_fits (hash1_len cfg) = true /\ digest_fits (hash2_len cfg) = true /\
  digest_fits (hash4_len cfg) = true.
Proof. unfold lengths_fit. rewrite !andb_true_iff. tauto. Qed.

Lemma hexdigest_granted (a : alg) (data : list byte) (n : Z) :
  0 <= n < 2 ^ 63 -> n <= Z.of_N capacity ->
  hexdigest a data n = ok (hexlify (digest a data (Z.to_nat n))).
Proof.
  intros [H0 H1] H2. unfold hexdigest.
  replace (n <? - 2 ^ 63) with false by (symmetry; apply Z.ltb_ge; lia).
  replace (2 ^ 63 <=? n) with false by (symmetry; apply Z.leb_gt; lia).
  replace (n <? 0) with false by (symmetry; apply Z.ltb_ge; lia).
  replace (Z.of_N capacity <? n) with false by (symmetry; apply Z.ltb_ge; lia).
  reflexivity.
Qed.

Lemma hexdigest_refused (a : alg) (data : list byte) (n : Z) :
  ~ (0 <= n < 2 ^ 63 /\ n <= Z.of_N capacity) ->
  exists e, hexdigest a data n = raise e /\ (e = OverflowError \/ e = MemoryError).
Proof.
  intros Hn. unfold hexdigest.
  destruct ((n <? - 2 ^ 63) || (2 ^ 63 <=? n)) eqn:E1; [eauto|].
  destruct ((n <? 0) || (Z.of_N capacity <? n)) eqn:E2; [eauto|].
  apply orb_false_iff in E1 as [A B]. apply orb_false_iff in E2 as [C D].
  apply Z.ltb_ge in A, C, D. apply Z.leb_gt in B. lia.
Qed.

Lemma shake_hash_hexdigest (data : list byte) (n : Z) (a : alg) :
  shake_hash data n a = hexdigest a data (n / 2).
Proof. unfold shake_hash. destruct a; reflexivity. Qed.

Lemma shake_hash_nonneg (data : list byte) (n : Z) (a : alg) :
  0 <= n -> digest_fits n = true ->
  shake_hash data n a = ok (hexlify (digest a data (Z.to_nat (n / 2)))).
Proof.
  intros Hn Hfit. apply digest_fits_spec in Hfit as [Hf1 Hf2].
  assert (0 <= n / 2) as Hh by (apply Z.div_pos; lia).
  rewrite shake_hash_hexdigest. apply hexdigest_granted; lia.
Qed.

Lemma shake_hash_refused (data : list byte) (n : Z) (a : alg) :
  ~ (0 <= n /\ digest_fits n = true) ->
  exists e, shake_hash data n a = raise e /\ (e = OverflowError \/ e = MemoryError).
Proof.
  intros Hn. rewrite shake_hash_hexdigest. apply hexdigest_refused.
  intros [[H0 H1] H2]. apply Hn. split.
  - destruct (Z_lt_le_dec n 0) as [Hneg|]; [|assumption].
    assert (n / 2 < 0) by (apply Z.div_lt_upper_bound; lia). lia.
  - apply digest_fits_spec. lia.
Qed.

(** From [2^64] characters on, the length asked for is no [ssize_t],
    whatever the allocator grants. *)
Lemma shake_hash_too_long (data : list byte) (n : Z) (a : alg) :
  2 ^ 64 <= n -> shake_hash data n a = raise OverflowError.
Proof.
  intros Hn. rewrite shake_hash_hexdigest. unfold hexdigest.
  assert (2 ^ 63 <= n / 2) as Hh by (apply Z.div_le_lower_bound; lia).
  apply Z.leb_le in Hh. rewrite Hh, orb_true_r. reflexivity.
Qed.

Lemma digest_fits_small (n : Z) : 0 <= n < 2 -> digest_fits n = true.
Proof.
  intros Hn. apply digest_fits_spec. rewrite Z.div_small by lia.
  split; [reflexivity | apply N2Z.is_nonneg].
Qed.

Lemma shake_hash_spec (data : list byte) (n : Z) (a : alg) :
  0 <= n -> digest_fits n = true ->
  exists h, shake_hash data n a = ok h /\ lower_hex h /\ len h = 2 * (n / 2).
Proof.
  intros Hn Hfit. eexists. split; [apply shake_hash_nonneg; assumption|].
  split; [apply hexlify_lower|].
  assert (0 <= n / 2) by (apply Z.div_pos; lia).
  unfold len. rewrite hexlify_length, digest_length. lia.
Qed.

Lemma len_nonempty {A} (l : list A) : 0 < len l -> l <> [].
Proof. intros H ->. unfold len in H. simpl in H. lia. Qed.

(** One [encode]/[shake_hash]/[int] round on a non-negative value. *)
Lemma hash_round (v n : Z) (a : alg) :
  0 <= v -> 2 <= n -> digest_fits n = true ->
  exists bs h v',
    encode v = ok bs /\ shake_hash bs n a = ok h /\ lower_hex h /\
    len h = 2 * (n / 2) /\ int16 h = ok v' /\ 0 <= v'.
Proof.
  intros Hv Hn Hfit.
  destruct (shake_hash_spec (be_bytes (Z.to_nat (byte_len v)) v) n a)
    as (h & Hh & Hhex & Hlen); [lia | exact Hfit |].
  assert (1 <= n / 2) by (apply Z.div_le_lower_bound; lia).
  destruct (int16_lower h Hhex) as (v' & Hv' & Hpos); [apply len_nonempty; lia|].
  exists (be_bytes (Z.to_nat (byte_len v)) v), h, v'.
  split; [apply encode_nonneg; exact Hv|]. auto.
Qed.

Lemma hashing_loop_spec (k : nat) (v n : Z) (a : alg) :
  0 <= v -> 2 <= n -> digest_fits n = true ->
  exists v', hashing_loop k v n a = ok v' /\ 0 <= v'.
Proof.
  intros Hv Hn Hfit. revert v Hv. induction k as [|k IH]; intros v Hv.
  - exists v. split; [reflexivity | exact Hv].
  - destruct (hash_round v n a Hv Hn Hfit) as (bs & h & v1 & Hbs & Hh & _ & _ & Hv1 & Hpos).
    destruct (IH v1 Hpos) as (v' & Hv' & Hpos').
    exists v'. split; [|exact Hpos'].
    cbn [hashing_loop]. rewrite Hbs. cbn [rbind ok]. rewrite Hh. cbn [rbind ok].
    rewrite Hv1. cbn [rbind ok]. exact Hv'.
Qed.

(** ** Shuffling and deleting *)

Lemma swap_perm {A} (i j : nat) (x : list A) : swap i j x ≡ₚ x.
Proof.
  unfold swap. destruct (x !! i) as [xi|] eqn:Ei; [|reflexivity].
  destruct (x !! j) as [xj|] eqn:Ej; [|reflexivity].
  apply Permutation_insert_swap; assumption.
Qed.

Lemma shuffle_loop_spec (i : nat) (x : str) w :
  exists x', shuffle_loop i x w = (ok x', advance 0 i w) /\ x' ≡ₚ x.
Proof.
  revert x w. induction i as [|i IH]; intros x w.
  - exists x. rewrite advance_0. split; reflexivity.
  - destruct (prng_below_spec (Z.of_nat (S i) + 1) w) as (j & Hj & _); [lia|].
    destruct (IH (swap (S i) (Z.to_nat j) x) (advance 0 1 w)) as (x' & Hx' & Hperm).
    exists x'. split.
    + cbn [shuffle_loop]. rewrite (bind_returns _ _ _ _ _ Hj), Hx', advance_advance.
      reflexivity.
    + rewrite Hperm. apply swap_perm.
Qed.

Lemma shuffle_string_spec (s : str) w :
  exists s', shuffle_string s w = (ok s', advance 0 (length s - 1) w) /\ s' ≡ₚ s.
Proof. apply shuffle_loop_spec. Qed.






Lemma lower_hex_perm (s s' : str) : s' ≡ₚ s -> lower_hex s -> lower_hex s'.
Proof. intros Hp Hs. unfold lower_hex. rewrite Hp. exact Hs. Qed.

Lemma pop_in_range {A} (idx : Z) (lst : list A) :
  0 <= idx < len lst -> pop idx lst = ok (delete (Z.to_nat idx) lst).
Proof.
  intros [H1 H2]. unfold pop.
  apply Z.leb_le in H1. apply Z.ltb_lt in H2. rewrite H1, H2. reflexivity.
Qed.

Lemma remove_loop_spec (k : nat) (lst : str) w :
  (k <= length lst)%nat ->
  exists lst',
    remove_loop k lst w = (ok lst', advance k 0 w) /\
    length lst' = (length lst - k)%nat /\ sublist lst' lst.
Proof.
  revert lst w. induction k as [|k IH]; intros lst w Hk.
  - exists lst. rewrite advance_0. split; [reflexivity|]. split; [lia | reflexivity].
  - destruct (randbelow_spec (len lst) w) as (idx & Hidx & Hrange);
      [unfold len; lia|].
    assert (length (delete (Z.to_nat idx) lst) = (length lst - 1)%nat) as Hlen.
    { apply length_delete, lookup_lt_is_Some_2. unfold len in Hrange. clear -Hrange. lia. }
    destruct (IH (delete (Z.to_nat idx) lst) (advance 1 0 w)) as (lst' & Hl & Hlen' & Hsub);
      [lia|].
    exists lst'. split; [|split].
    + cbn [remove_loop]. rewrite (bind_returns _ _ _ _ _ Hidx).
      rewrite (pop_in_range idx lst Hrange), bind_lift_ok, Hl, advance_advance.
      reflexivity.
    + lia.
    + etrans; [exact Hsub | apply sublist_delete].
Qed.

Lemma lower_hex_sublist (s s' : str) : sublist s' s -> lower_hex s -> lower_hex s'.
Proof.
  intros Hsub Hs. apply sublist_alt in Hsub as (js & ->). unfold lower_hex.
  induction js as [|j js IH]; simpl; [exact Hs | apply Forall_delete, IH].
Qed.

Lemma remove_random_chars_spec (s : str) (n : Z) w :
  exists s',
    remove_random_chars s n w = (ok s', advance (removed s n) 0 w) /\
    length s' = (length s - removed s n)%nat /\ sublist s' s.
Proof.
  apply remove_loop_spec. unfold removed, len. lia.
Qed.

Lemma remove_random_chars_all (s : str) (n : Z) w :
  len s <= n ->
  remove_random_chars s n w = (ok [], advance (length s) 0 w).
Proof.
  intros Hn. destruct (remove_random_chars_spec s n w) as (s' & Hs' & Hlen & _).
  assert (removed s n = length s) as Hr by (unfold removed, len in *; lia).
  rewrite Hr in *. replace s' with (@nil ascii) in Hs'; [exact Hs'|].
  destruct s'; [reflexivity | simpl in Hlen; lia].
Qed.

Lemma slice_to_lower {k : Z} (s : str) : lower_hex s -> lower_hex (slice_to k s).
Proof.
  intros Hs. unfold slice_to. destruct (k <? 0); apply Forall_take; exact Hs.
Qed.

Lemma slice_to_len {A} (k : Z) (s : list A) :
  0 <= k -> len (slice_to k s) = Z.min k (len s).
Proof.
  intros Hk. unfold slice_to, len.
  destruct (k <? 0) eqn:E; [apply Z.ltb_lt in E; lia|].
  rewrite length_take. lia.
Qed.

(** ** One pass *)

Lemma sqrt_and_divide_spec (v d : Z) :
  0 <= v -> 0 < d -> sqrt_and_divide v d = ok (Z.sqrt v / d) /\ 0 <= Z.sqrt v / d.
Proof.
  intros Hv Hd. unfold sqrt_and_divide, isqrt, floordiv.
  destruct (v <? 0) eqn:E1; [apply Z.ltb_lt in E1; lia|]. cbn [rbind ok].
  destruct (d =? 0) eqn:E2; [apply Z.eqb_eq in E2; lia|].
  split; [reflexivity|]. apply Z.div_pos; [apply Z.sqrt_nonneg | exact Hd].
Qed.

Lemma shuffle_and_rehash_spec (cfg : PipelineConfig) (h4 : str) (m : Z) w :
  lower_hex h4 -> len h4 = 2 * m -> 2 <= hash2_len cfg ->
  digest_fits (hash2_len cfg) = true ->
  exists shuffled bs h5 v,
    shuffle_string h4 w = (ok shuffled, advance 0 (length h4 - 1) w) /\
    shuffled ≡ₚ h4 /\
    fromhex (slice_to (hash2_len cfg * 2) shuffled) = ok bs /\
    len bs = Z.min (hash2_len cfg) m /\
    shake_hash bs (hash2_len cfg) shake_128 = ok h5 /\
    lower_hex h5 /\ len h5 = 2 * (hash2_len cfg / 2) /\
    int16 h5 = ok v /\ 0 <= v /\
    shuffle_and_rehash cfg h4 w = (ok (h5, v), advance 0 (length h4 - 1) w).
Proof.
  intros Hhex Hlen H2 F2.
  destruct (shuffle_string_spec h4 w) as (shuffled & Hsh & Hperm).
  assert (len shuffled = 2 * m) as Hlen'.
  { unfold len in *. rewrite Hperm. exact Hlen. }
  assert (0 <= m) as Hm by (unfold len in Hlen; lia).
  pose proof (slice_to_len (hash2_len cfg * 2) shuffled ltac:(lia)) as Hsl.
  destruct (fromhex_lower (Z.to_nat (Z.min (hash2_len cfg) m))
              (slice_to (hash2_len cfg * 2) shuffled)) as (bs & Hbs & Hbl).
  { apply slice_to_lower. eapply lower_hex_perm; eassumption. }
  { unfold len in Hsl. unfold len in Hlen'. lia. }
  destruct (shake_hash_spec bs (hash2_len cfg) shake_128) as (h5 & Hh5 & Hhex5 & Hlen5);
    [lia | exact F2 |].
  assert (1 <= hash2_len cfg / 2) by (apply Z.div_le_lower_bound; lia).
  destruct (int16_lower h5 Hhex5) as (v & Hv & Hpos); [apply len_nonempty; lia|].
  exists shuffled, bs, h5, v.
  repeat (split; [first [assumption | unfold len; lia]|]).
  unfold shuffle_and_rehash.
  rewrite (bind_returns _ _ _ _ _ Hsh), Hbs, bind_lift_ok, Hh5, bind_lift_ok,
    Hv, bind_lift_ok.
  reflexivity.
Qed.

(** The values of a pass up to the digest [h4] that is shuffled. *)
Lemma mix_chain (cfg : PipelineConfig) (v : Z) w :
  0 <= v -> 2 <= hash1_len cfg -> digest_fits (hash1_len cfg) = true ->
  2 <= hash2_len cfg -> digest_fits (hash2_len cfg) = true ->
  exists v1 v2 v3 v4 v5 bs3 h3 v6 bs4 h4,
    multiply_by_random v (mul_times cfg) w
      = (ok v1, advance (Z.to_nat (mul_times cfg)) 0 w) /\
    add_random v1 (add_times cfg) (advance (Z.to_nat (mul_times cfg)) 0 w)
      = (ok v2, advance (Z.to_nat (mul_times cfg) + Z.to_nat (add_times cfg)) 0 w) /\
    repeated_hashing v2 (hash1_len cfg) (hash1_loops cfg) shake_256 = ok v3 /\
    repeated_hashing v3 (hash2_len cfg) 1 shake_128 = ok v4 /\
    sqrt_and_divide v4 4 = ok v5 /\
    encode v5 = ok bs3 /\ shake_hash bs3 (hash1_len cfg) shake_256 = ok h3 /\
    int16 (rev h3) = ok v6 /\
    encode v6 = ok bs4 /\ shake_hash bs4 (hash1_len cfg) shake_256 = ok h4 /\
    lower_hex h4 /\ len h4 = 2 * (hash1_len cfg / 2) /\
    mix cfg v w =
      (let* (h5, value) := shuffle_and_rehash cfg h4 in trim_and_scale cfg h5)%pipe
        (advance (Z.to_nat (mul_times cfg) + Z.to_nat (add_times cfg)) 0 w).
Proof.
  intros Hv H1 F1 H2 F2.
  destruct (multiply_loop_spec (range_count (mul_times cfg)) v w Hv)
    as (v1 & Hm & Hv1).
  destruct (add_loop_spec (range_count (add_times cfg)) v1
              (advance (range_count (mul_times cfg)) 0 w) Hv1) as (v2 & Ha & Hv2).
  rewrite advance_advance in Ha.
  destruct (hashing_loop_spec (range_count (hash1_loops cfg)) v2 (hash1_len cfg)
              shake_256 Hv2 H1 F1) as (v3 & Hr1 & Hv3).
  destruct (hashing_loop_spec (range_count 1) v3 (hash2_len cfg) shake_128 Hv3 H2 F2)
    as (v4 & Hr2 & Hv4).
  destruct (sqrt_and_divide_spec v4 4 Hv4 eq_refl) as (Hsq & Hv5).
  destruct (hash_round (Z.sqrt v4 / 4) (hash1_len cfg) shake_256 Hv5 H1 F1)
    as (bs3 & h3 & _ & Hbs3 & Hh3 & Hhex3 & Hlen3 & _ & _).
  assert (1 <= hash1_len cfg / 2) by (apply Z.div_le_lower_bound; lia).
  destruct (int16_lower (rev h3)) as (v6 & Hi6 & Hv6).
  { apply Forall_rev. exact Hhex3. }
  { apply len_nonempty. unfold len in *. rewrite length_rev. lia. }
  destruct (hash_round v6 (hash1_len cfg) shake_256 Hv6 H1 F1)
    as (bs4 & h4 & v7 & Hbs4 & Hh4 & Hhex4 & Hlen4 & Hi7 & _).
  exists v1, v2, v3, v4, (Z.sqrt v4 / 4), bs3, h3, v6, bs4, h4.
  split; [exact Hm|]. split; [exact Ha|]. split; [exact Hr1|]. split; [exact Hr2|].
  split; [exact Hsq|]. split; [exact Hbs3|]. split; [exact Hh3|]. split; [exact Hi6|].
  split; [exact Hbs4|]. split; [exact Hh4|]. split; [exact Hhex4|]. split; [exact Hlen4|].
  unfold mix, multiply_by_random, add_random, repeated_hashing.
  rewrite (bind_returns _ _ _ _ _ Hm), (bind_returns _ _ _ _ _ Ha).
  rewrite Hr1, bind_lift_ok, Hr2, bind_lift_ok, Hsq, bind_lift_ok.
  rewrite Hbs3, bind_lift_ok, Hh3, bind_lift_ok. cbv zeta.
  rewrite Hi6, bind_lift_ok, Hbs4, bind_lift_ok, Hh4, bind_lift_ok, Hi7, bind_lift_ok.
  reflexivity.
Qed.

Lemma mix_reaches_shuffle (cfg : PipelineConfig) (v : Z) w :
  0 <= v -> 2 <= hash1_len cfg -> digest_fits (hash1_len cfg) = true ->
  2 <= hash2_len cfg -> digest_fits (hash2_len cfg) = true ->
  exists h4,
    lower_hex h4 /\ len h4 = 2 * (hash1_len cfg / 2) /\
    mix cfg v w =
      (let* (h5, value) := shuffle_and_rehash cfg h4 in trim_and_scale cfg h5)%pipe
        (advance (Z.to_nat (mul_times cfg) + Z.to_nat (add_times cfg)) 0 w).
Proof.
  intros Hv H1 F1 H2 F2.
  destruct (mix_chain cfg v w Hv H1 F1 H2 F2)
    as (v1 & v2 & v3 & v4 & v5 & bs3 & h3 & v6 & bs4 & h4 & Hc).
  exists h4. tauto.
Qed.

Lemma mix_reaches_trim (cfg : PipelineConfig) (v : Z) w :
  0 <= v -> 2 <= hash1_len cfg -> digest_fits (hash1_len cfg) = true ->
  2 <= hash2_len cfg -> digest_fits (hash2_len cfg) = true ->
  exists h5,
    lower_hex h5 /\ len h5 = 2 * (hash2_len cfg / 2) /\
    mix cfg v w =
      trim_and_scale cfg h5
        (advance (Z.to_nat (mul_times cfg) + Z.to_nat (add_times cfg))
                 (Z.to_nat (2 * (hash1_len cfg / 2)) - 1) w).
Proof.
  intros Hv H1 F1 H2 F2.
  destruct (mix_reaches_shuffle cfg v w Hv H1 F1 H2 F2) as (h4 & Hhex4 & Hlen4 & ->).
  destruct (shuffle_and_rehash_spec cfg h4 (hash1_len cfg / 2)
              (advance (Z.to_nat (mul_times cfg) + Z.to_nat (add_times cfg)) 0 w)
              Hhex4 Hlen4 H2 F2)
    as (sh & bs5 & h5 & v8 & _ & _ & _ & _ & _ & Hhex5 & Hlen5 & _ & _ & Hstep).
  exists h5. split; [exact Hhex5|]. split; [exact Hlen5|].
  rewrite (bind_returns _ _ _ _ _ Hstep), advance_advance.
  f_equal. apply advance_eq; unfold len in *; lia.
Qed.

Lemma trim_and_scale_spec (cfg : PipelineConfig) (h5 : str) w :
  lower_hex h5 -> 0 < len h5 -> remove_chars cfg < len h5 ->
  exists v,
    trim_and_scale cfg h5 w = (ok v, advance (Z.to_nat (remove_chars cfg) + 1) 0 w) /\
    0 <= v.
Proof.
  intros Hhex Hne Hrc.
  destruct (remove_random_chars_spec h5 (remove_chars cfg) w) as (t & Ht & Hlen & Hsub).
  assert (removed h5 (remove_chars cfg) = Z.to_nat (remove_chars cfg)) as Hrm
    by (unfold removed; lia).
  rewrite Hrm in *.
  destruct (int16_lower t) as (p & Hp & Hpos).
  { eapply lower_hex_sublist; eassumption. }
  { apply len_nonempty. unfold len in *. lia. }
  destruct (randbelow_spec (Z.shiftl 1 16) (advance (Z.to_nat (remove_chars cfg)) 0 w) eq_refl)
    as (r & Hr & Hrange).
  exists (p * (r + 1)). split; [|nia].
  unfold trim_and_scale.
  rewrite (bind_returns _ _ _ _ _ Ht), Hp, bind_lift_ok, (bind_returns _ _ _ _ _ Hr),
    advance_advance.
  reflexivity.
Qed.

Lemma trim_and_scale_empty (cfg : PipelineConfig) (h5 : str) w :
  len h5 <= remove_chars cfg ->
  trim_and_scale cfg h5 w = (raise ValueError, advance (length h5) 0 w).
Proof.
  intros Hrc. unfold trim_and_scale.
  rewrite (bind_returns _ _ _ _ _ (remove_random_chars_all h5 _ w Hrc)).
  reflexivity.
Qed.

Lemma final_hash (cfg : PipelineConfig) (v : Z) :
  0 <= v -> 2 <= hash4_len cfg -> digest_fits (hash4_len cfg) = true ->
  exists bs h6 v6 t,
    encode v = ok bs /\ shake_hash bs (hash4_len cfg) shake_256 = ok h6 /\
    int16 h6 = ok v6 /\ int16 (slice_to 4096 h6) = ok t /\ 0 <= t.
Proof.
  intros Hv H4 F4.
  destruct (hash_round v (hash4_len cfg) shake_256 Hv H4 F4)
    as (bs & h6 & v6 & Hbs & Hh6 & Hhex & Hlen & Hv6 & _).
  assert (1 <= hash4_len cfg / 2) by (apply Z.div_le_lower_bound; lia).
  destruct (int16_lower (slice_to 4096 h6)) as (t & Ht & Hpos).
  { apply slice_to_lower. exact Hhex. }
  { apply len_nonempty. rewrite slice_to_len by lia. lia. }
  exists bs, h6, v6, t. auto.
Qed.

Lemma reduce_spec (cfg : PipelineConfig) (v : Z) w :
  0 <= v -> 2 <= hash4_len cfg -> digest_fits (hash4_len cfg) = true ->
  final_div cfg <> 0 ->
  exists r, reduce cfg v w = (ok r, w) /\ 0 <= r <= 255.
Proof.
  intros Hv H4 F4 Hd.
  destruct (final_hash cfg v Hv H4 F4) as (bs & h6 & v6 & t & Hbs & Hh6 & Hv6 & Ht & _).
  exists (t mod 256). split; [|pose proof (Z.mod_pos_bound t 256 eq_refl); lia].
  unfold reduce, floordiv.
  rewrite Hbs, bind_lift_ok, Hh6, bind_lift_ok, Hv6, bind_lift_ok.
  destruct (final_div cfg =? 0) eqn:E; [apply Z.eqb_eq in E; contradiction|].
  rewrite bind_lift_ok. cbv zeta. rewrite Ht, bind_lift_ok. reflexivity.
Qed.

Lemma reduce_zero_divisor (cfg : PipelineConfig) (v : Z) w :
  0 <= v -> 2 <= hash4_len cfg -> digest_fits (hash4_len cfg) = true ->
  final_div cfg = 0 ->
  reduce cfg v w = (raise ZeroDivisionError, w).
Proof.
  intros Hv H4 F4 Hd.
  destruct (final_hash cfg v Hv H4 F4) as (bs & h6 & v6 & t & Hbs & Hh6 & Hv6 & _).
  unfold reduce, floordiv.
  rewrite Hbs, bind_lift_ok, Hh6, bind_lift_ok, Hv6, bind_lift_ok, Hd.
  reflexivity.
Qed.

Lemma mix_spec (cfg : PipelineConfig) (v : Z) w :
  0 <= v -> 2 <= hash1_len cfg -> digest_fits (hash1_len cfg) = true ->
  2 <= hash2_len cfg -> digest_fits (hash2_len cfg) = true ->
  remove_chars cfg < 2 * (hash2_len cfg / 2) ->
  exists v',
    mix cfg v w = (ok v', advance (secure_per_pass cfg) (prng_per_pass cfg) w) /\
    0 <= v'.
Proof.
  intros Hv H1 F1 H2 F2 Hrc.
  destruct (mix_reaches_trim cfg v w Hv H1 F1 H2 F2) as (h5 & Hhex & Hlen & ->).
  assert (1 <= hash2_len cfg / 2) by (apply Z.div_le_lower_bound; lia).
  destruct (trim_and_scale_spec cfg h5
              (advance (Z.to_nat (mul_times cfg) + Z.to_nat (add_times cfg))
                 (Z.to_nat (2 * (hash1_len cfg / 2)) - 1) w) Hhex)
    as (v' & Hv' & Hpos); [lia | lia |].
  exists v'. split; [|exact Hpos].
  rewrite Hv', advance_advance.
  apply f_equal, advance_eq; unfold secure_per_pass, prng_per_pass; lia.
Qed.

Lemma mix_empty_trim (cfg : PipelineConfig) (v : Z) w :
  0 <= v -> 2 <= hash1_len cfg -> digest_fits (hash1_len cfg) = true ->
  2 <= hash2_len cfg -> digest_fits (hash2_len cfg) = true ->
  2 * (hash2_len cfg / 2) <= remove_chars cfg ->
  mix cfg v w =
    (raise ValueError,
     advance (Z.to_nat (mul_times cfg) + Z.to_nat (add_times cfg)
              + Z.to_nat (2 * (hash2_len cfg / 2)))
             (prng_per_pass cfg) w).
Proof.
  intros Hv H1 F1 H2 F2 Hrc.
  destruct (mix_reaches_trim cfg v w Hv H1 F1 H2 F2) as (h5 & Hhex & Hlen & ->).
  rewrite trim_and_scale_empty by lia. rewrite advance_advance.
  apply f_equal, advance_eq; unfold prng_per_pass, len in *; lia.
Qed.

Lemma pass_spec (cfg : PipelineConfig) (v : Z) w :
  0 <= v -> 2 <= hash1_len cfg -> 2 <= hash2_len cfg -> 2 <= hash4_len cfg ->
  lengths_fit cfg = true ->
  remove_chars cfg < 2 * (hash2_len cfg / 2) -> final_div cfg <> 0 ->
  exists r,
    pass cfg v w = (ok r, advance (secure_per_pass cfg) (prng_per_pass cfg) w) /\
    0 <= r <= 255.
Proof.
  intros Hv H1 H2 H4 Hfit Hrc Hd.
  apply lengths_fit_spec in Hfit as (F1 & F2 & F4).
  destruct (mix_spec cfg v w Hv H1 F1 H2 F2 Hrc) as (v' & Hmix & Hpos).
  destruct (reduce_spec cfg v' (advance (secure_per_pass cfg) (prng_per_pass cfg) w)
              Hpos H4 F4 Hd) as (r & Hr & Hrange).
  exists r. split; [|exact Hrange].
  unfold pass. rewrite (bind_returns _ _ _ _ _ Hmix). exact Hr.
Qed.

Lemma passes_spec (cfg : PipelineConfig) (k : nat) (v : Z) w :
  0 <= v -> 2 <= hash1_len cfg -> 2 <= hash2_len cfg -> 2 <= hash4_len cfg ->
  lengths_fit cfg = true ->
  remove_chars cfg < 2 * (hash2_len cfg / 2) -> final_div cfg <> 0 ->
  exists r,
    passes (pass cfg) k v w
      = (ok r, advance (k * secure_per_pass cfg) (k * prng_per_pass cfg) w) /\
    0 <= r /\ (k = O -> r = v) /\ (k <> O -> r <= 255).
Proof.
  intros Hv H1 H2 H4 Hfit Hrc Hd. revert v w Hv. induction k as [|k IH]; intros v w Hv.
  - exists v. rewrite advance_0. repeat split; [exact Hv | congruence].
  - destruct (pass_spec cfg v w Hv H1 H2 H4 Hfit Hrc Hd) as (v1 & Hp & Hrange).
    destruct (IH v1 (advance (secure_per_pass cfg) (prng_per_pass cfg) w))
      as (r & Hr & Hpos & Hz & Hnz); [lia|].
    exists r. split; [|split; [exact Hpos|split; [discriminate|]]].
    + cbn [passes]. rewrite (bind_returns _ _ _ _ _ Hp), Hr, advance_advance.
      apply f_equal, advance_eq; lia.
    + intros _. destruct k; [rewrite Hz by reflexivity; lia | apply Hnz; discriminate].
Qed.

Lemma pipeline_spec (cfg : PipelineConfig) (v : Z) w :
  0 <= v -> 0 < loops cfg ->
  2 <= hash1_len cfg -> 2 <= hash2_len cfg -> 2 <= hash4_len cfg ->
  lengths_fit cfg = true ->
  remove_chars cfg < 2 * (hash2_len cfg / 2) -> final_div cfg <> 0 ->
  exists r,
    pipeline cfg v w
      = (ok r, advance (Z.to_nat (loops cfg) * secure_per_pass cfg)
                       (Z.to_nat (loops cfg) * prng_per_pass cfg) w) /\
    0 <= r <= 255.
Proof.
  intros Hv Hl H1 H2 H4 Hfit Hrc Hd.
  destruct (passes_spec cfg (Z.to_nat (loops cfg)) v w Hv H1 H2 H4 Hfit Hrc Hd)
    as (r & Hr & Hpos & _ & Hle).
  exists r. split; [exact Hr|]. split; [exact Hpos | apply Hle; lia].
Qed.

(** ** Configurations *)

Lemma even_positive_inv (n : Z) :
  even_positive n = true -> 2 <= n /\ 2 * (n / 2) = n.
Proof.
  unfold even_positive. intros H. apply andb_true_iff in H as [Hpos Hev].
  apply Z.ltb_lt in Hpos. apply Z.even_spec in Hev as [m ->].
  rewrite Z.mul_comm, Z.div_mul by lia. lia.
Qed.

Lemma valid_shape_inv (cfg : PipelineConfig) :
  valid_shape cfg = true ->
  0 < loops cfg /\
  (2 <= hash1_len cfg /\ 2 * (hash1_len cfg / 2) = hash1_len cfg) /\
  (2 <= hash2_len cfg /\ 2 * (hash2_len cfg / 2) = hash2_len cfg) /\
  (2 <= hash4_len cfg /\ 2 * (hash4_len cfg / 2) = hash4_len cfg).
Proof.
  unfold valid_shape. intros H.
  repeat (apply andb_true_iff in H as [H ?]).
  apply Z.ltb_lt in H. auto using even_positive_inv.
Qed.

Lemma valid_config_inv (cfg : PipelineConfig) :
  valid_config cfg = true -> valid_shape cfg = true /\ final_div cfg <> 0.
Proof.
  unfold valid_config. intros H. apply andb_true_iff in H as [Hs Hd].
  split; [exact Hs|]. apply negb_true_iff, Z.eqb_neq in Hd. exact Hd.
Qed.

(** ** The claims *)

(** C1 (as amended). For every configuration the specification accepts
    whose digest lengths fit (half of each is below [2^63] and within
    what the allocator grants) and in which, moreover,
    [remove_chars < hash2_len], and every non-negative seed, [pipeline]
    returns an integer between 0 and 255. *)
Theorem pipeline_byte_range (cfg : PipelineConfig) (v : Z) w :
  valid_config cfg = true -> lengths_fit cfg = true ->
  remove_chars cfg < hash2_len cfg -> 0 <= v ->
  exists r w', pipeline cfg v w = (ok r, w') /\ 0 <= r <= 255.
Proof.
  intros Hvalid Hfit Hrc Hv.
  destruct (valid_config_inv cfg Hvalid) as (Hshape & Hd).
  destruct (valid_shape_inv cfg Hshape) as (Hl & (H1 & _) & (H2 & E2) & (H4 & _)).
  destruct (pipeline_spec cfg v w Hv Hl H1 H2 H4 Hfit ltac:(lia) Hd) as (r & Hr & Hrange).
  eauto.
Qed.

(** C2 (as amended). With [final_div = 0] nothing is checked beforehand:
    a configuration that is otherwise accepted, whose digest lengths
    fit and with [remove_chars < hash2_len], runs its first pass up to
    the division and raises [ZeroDivisionError] there, after all the
    draws of that pass have been made. *)
Theorem pipeline_zero_divisor (cfg : PipelineConfig) (v : Z) w :
  valid_shape cfg = true -> lengths_fit cfg = true -> final_div cfg = 0 ->
  remove_chars cfg < hash2_len cfg -> 0 <= v ->
  pipeline cfg v w
    = (raise ZeroDivisionError, advance (secure_per_pass cfg) (prng_per_pass cfg) w) /\
  (0 < secure_per_pass cfg)%nat.
Proof.
  intros Hshape Hfit Hd Hrc Hv.
  destruct (valid_shape_inv cfg Hshape) as (Hl & (H1 & _) & (H2 & E2) & (H4 & _)).
  apply lengths_fit_spec in Hfit as (F1 & F2 & F4).
  split; [|unfold secure_per_pass; lia].
  destruct (mix_spec cfg v w Hv H1 F1 H2 F2 ltac:(lia)) as (v' & Hmix & Hpos).
  unfold pipeline, range_count.
  destruct (Z.to_nat (loops cfg)) as [|k] eqn:Ek; [lia|].
  cbn [passes]. apply bind_raises. unfold pass.
  rewrite (bind_returns _ _ _ _ _ Hmix).
  apply reduce_zero_divisor; assumption.
Qed.

(** C3 (as amended). Deleting [n >= len(s)] characters yields the empty
    string without error, after [len(s)] draws.  The pipeline does not
    turn the empty string into [0].  For an accepted configuration whose
    digest lengths fit and a non-negative seed: when
    [remove_chars < hash2_len] it returns a byte after all its passes;
    when [remove_chars >= hash2_len] its first pass raises the
    [ValueError] of [int("", 16)], after the draws of the
    multiplications and additions, the shuffle and the [hash2_len]
    deletions, and the pipeline stops there. *)
Theorem remove_all_then_parse (cfg : PipelineConfig) (v : Z) w :
  valid_config cfg = true -> lengths_fit cfg = true -> 0 <= v ->
  (forall s n w1, len s <= n ->
     remove_random_chars s n w1 = (ok [], advance (length s) 0 w1)) /\
  int16 [] = raise ValueError /\
  (remove_chars cfg < hash2_len cfg ->
     exists r,
       pipeline cfg v w
         = (ok r, advance (Z.to_nat (loops cfg) * secure_per_pass cfg)
                          (Z.to_nat (loops cfg) * prng_per_pass cfg) w) /\
       0 <= r <= 255) /\
  (hash2_len cfg <= remove_chars cfg ->
     let w1 :=
       advance (Z.to_nat (mul_times cfg) + Z.to_nat (add_times cfg)
                + Z.to_nat (hash2_len cfg)) (prng_per_pass cfg) w in
     mix cfg v w = (raise ValueError, w1) /\
     pass cfg v w = (raise ValueError, w1) /\
     pipeline cfg v w = (raise ValueError, w1)).
Proof.
  intros Hvalid Hfit Hv.
  destruct (valid_config_inv cfg Hvalid) as (Hshape & Hd).
  destruct (valid_shape_inv cfg Hshape) as (Hl & (H1 & _) & (H2 & E2) & (H4 & _)).
  split; [intros s n w1; apply remove_random_chars_all|].
  split; [reflexivity|]. split.
  - intros Hrc. apply pipeline_spec; try assumption. lia.
  - intros Hrc. cbv zeta.
    apply lengths_fit_spec in Hfit as (F1 & F2 & F4).
    pose proof (mix_empty_trim cfg v w Hv H1 F1 H2 F2 ltac:(lia)) as Hmix.
    rewrite E2 in Hmix.
    assert (pass cfg v w
            = (raise ValueError,
               advance (Z.to_nat (mul_times cfg) + Z.to_nat (add_times cfg)
                        + Z.to_nat (hash2_len cfg)) (prng_per_pass cfg) w)) as Hpass
      by (unfold pass; apply bind_raises; exact Hmix).
    split; [exact Hmix|]. split; [exact Hpass|].
    unfold pipeline, range_count.
    destruct (Z.to_nat (loops cfg)) as [|k] eqn:Ek; [lia|].
    cbn [passes]. apply bind_raises. exact Hpass.
Qed.

Lemma reduce_elided_eq (cfg : PipelineConfig) (v : Z) w :
  final_div cfg <> 0 -> reduce cfg v w = reduce_elided cfg v w.
Proof.
  intros Hd. unfold reduce, reduce_elided.
  destruct (encode v) as [e|bs]; [reflexivity|]. rewrite !bind_lift_ok.
  destruct (shake_hash bs (hash4_len cfg) shake_256) as [e|h6]; [reflexivity|].
  rewrite !bind_lift_ok.
  destruct (int16 h6) as [e|v6]; [reflexivity|]. rewrite !bind_lift_ok.
  unfold floordiv. destruct (final_div cfg =? 0) eqn:E; [apply Z.eqb_eq in E; contradiction|].
  rewrite bind_lift_ok. reflexivity.
Qed.

Lemma pass_elided_eq (cfg : PipelineConfig) (v : Z) w :
  final_div cfg <> 0 -> pass cfg v w = pass_elided cfg v w.
Proof.
  intros Hd. unfold pass, pass_elided, bind.
  destruct (mix cfg v w) as [[e|v'] w1]; [reflexivity|].
  apply reduce_elided_eq. exact Hd.
Qed.

Lemma passes_ext (f g : Z -> M Z) (k : nat) (v : Z) w :
  (forall x w1, f x w1 = g x w1) -> passes f k v w = passes g k v w.
Proof.
  intros Hfg. revert v w. induction k as [|k IH]; intros v w; [reflexivity|].
  cbn [passes]. unfold bind. rewrite Hfg.
  destruct (g v w) as [[e|v'] w1]; [reflexivity | apply IH].
Qed.

(** C4. The statement [value //= final_div] is dead work: when
    [final_div] is not zero, the pipeline with that statement removed
    returns the same result, and leaves the random sources in the same
    state, as the pipeline itself, on every seed and on the same draws. *)
Theorem division_is_dead (cfg : PipelineConfig) (v : Z) w :
  final_div cfg <> 0 -> pipeline cfg v w = pipeline_elided cfg v w.
Proof.
  intros Hd. unfold pipeline, pipeline_elided.
  apply passes_ext. intros x w1. apply pass_elided_eq. exact Hd.
Qed.

(** C6 (as amended). For an even positive [out_len_chars] that fits
    (its half is below [2^63] and within what the allocator grants) and
    any input, [shake_hash] (either variant) returns the lowercase
    hexadecimal form of the first [out_len_chars / 2] bytes of the XOF
    output, a string of exactly [out_len_chars] characters. *)
Theorem shake_hash_even_length (data : list byte) (n : Z) (a : alg) :
  0 < n -> Z.even n = true -> digest_fits n = true ->
  exists h,
    shake_hash data n a = ok h /\
    h = hexlify (digest a data (Z.to_nat (n / 2))) /\
    len (digest a data (Z.to_nat (n / 2))) = n / 2 /\
    len h = n /\ lower_hex h.
Proof.
  intros Hpos Hev Hfit. eexists. split; [apply shake_hash_nonneg; [lia | exact Hfit]|].
  split; [reflexivity|].
  apply Z.even_spec in Hev as [m ->].
  rewrite Z.mul_comm, Z.div_mul by lia.
  unfold len. rewrite hexlify_length, digest_length.
  split; [lia|]. split; [lia | apply hexlify_lower].
Qed.

(** C7 (as amended). For an odd positive [out_len_chars = n] that fits
    (its half is below [2^63] and within what the allocator grants),
    [shake_hash] asks for [n // 2 = (n - 1) / 2] bytes, so that the
    digest has [n - 1] characters. *)
Theorem shake_hash_odd_length (data : list byte) (n : Z) (a : alg) :
  0 < n -> Z.odd n = true -> digest_fits n = true ->
  exists h,
    shake_hash data n a = ok h /\
    h = hexlify (digest a data (Z.to_nat (n / 2))) /\
    2 * (n / 2) = n - 1 /\
    len h = n - 1 /\ lower_hex h.
Proof.
  intros Hpos Hodd Hfit. eexists. split; [apply shake_hash_nonneg; [lia | exact Hfit]|].
  split; [reflexivity|].
  apply Z.odd_spec in Hodd as [m ->].
  assert ((2 * m + 1) / 2 = m) as ->.
  { rewrite Z.mul_comm, Z.div_add_l by lia. change (1 / 2) with 0. lia. }
  unfold len. rewrite hexlify_length, digest_length.
  split; [lia|]. split; [lia | apply hexlify_lower].
Qed.



(** C9. Repeating zero times is the identity: [multiply_by_random(v, 0)]
    and [add_random(v, 0)] return [v] and draw nothing, and so does
    their composition, the first two steps of a pass. *)
Theorem repeat_zero_identity (v : Z) w :
  multiply_by_random v 0 w = (ok v, w) /\
  add_random v 0 w = (ok v, w) /\
  (let* x := multiply_by_random v 0 in add_random x 0)%pipe w = (ok v, w).
Proof. repeat split. Qed.

(** C10. With [loops <= 0] the body of the loop never runs: whatever
    the other parameters (nothing is validated), [pipeline] returns
    [initial_value] itself and draws nothing, so that the result is
    outside 0..255 whenever the seed is. *)
Theorem pipeline_no_loops (cfg : PipelineConfig) (v : Z) w :
  loops cfg <= 0 -> pipeline cfg v w = (ok v, w).
Proof.
  intros Hl. unfold pipeline, range_count.
  replace (Z.to_nat (loops cfg)) with O by lia. reflexivity.
Qed.

(** ** Further properties of the helpers *)

Lemma parse_hex_hexlify (bs : list byte) (acc : Z) :
  parse_hex acc (hexlify bs)
    = Some (fold_left (fun a b => a * 256 + Z_of_byte b) bs acc).
Proof.
  revert acc. induction bs as [|b bs IH]; intros acc; [reflexivity|].
  pose proof (Z_of_byte_range b) as Hb.
  assert (0 <= Z_of_byte b / 16 < 16) as Hhi
    by (split; [apply Z.div_pos; lia | apply Z.div_lt_upper_bound; lia]).
  assert (0 <= Z_of_byte b mod 16 < 16) as Hlo by (apply Z.mod_pos_bound; lia).
  cbn [hexlify flat_map app parse_hex].
  rewrite (hex_val_hex_digit _ Hhi), (hex_val_hex_digit _ Hlo).
  change (flat_map _ bs) with (hexlify bs). rewrite IH. cbn [fold_left].
  do 2 f_equal. pose proof (Z.div_mod (Z_of_byte b) 16 ltac:(lia)). lia.
Qed.

Lemma int16_hexlify (bs : list byte) :
  bs <> [] -> int16 (hexlify bs) = ok (from_bytes bs).
Proof.
  intros Hne. unfold int16. rewrite parse_hex_hexlify.
  destruct bs as [|b bs]; [congruence|]. reflexivity.
Qed.

Lemma fromhex_hexlify (bs : list byte) : fromhex (hexlify bs) = ok bs.
Proof.
  induction bs as [|b bs IH]; [reflexivity|].
  pose proof (Z_of_byte_range b) as Hb.
  assert (0 <= Z_of_byte b / 16 < 16) as Hhi
    by (split; [apply Z.div_pos; lia | apply Z.div_lt_upper_bound; lia]).
  assert (0 <= Z_of_byte b mod 16 < 16) as Hlo by (apply Z.mod_pos_bound; lia).
  cbn [hexlify flat_map app fromhex].
  rewrite (hex_val_hex_digit _ Hhi), (hex_val_hex_digit _ Hlo).
  change (flat_map _ bs) with (hexlify bs). rewrite IH. cbn [rbind ok].
  do 2 f_equal. rewrite <- (byte_of_Z_of_byte b) at 3. f_equal.
  pose proof (Z.div_mod (Z_of_byte b) 16 ltac:(lia)). lia.
Qed.

Lemma fold_bytes_bound (bs : list byte) (acc : Z) :
  0 <= acc ->
  0 <= fold_left (fun a b => a * 256 + Z_of_byte b) bs acc
    < (acc + 1) * 256 ^ len bs.
Proof.
  revert acc. induction bs as [|b bs IH]; intros acc Hacc.
  - unfold len. cbn [length fold_left]. change (256 ^ Z.of_nat 0) with 1. lia.
  - pose proof (Z_of_byte_range b) as Hb. cbn [fold_left].
    destruct (IH (acc * 256 + Z_of_byte b) ltac:(lia)) as [Hlo Hhi].
    split; [exact Hlo|].
    eapply Z.lt_le_trans; [exact Hhi|].
    unfold len. cbn [length]. rewrite Nat2Z.inj_succ, Z.pow_succ_r by lia.
    assert (0 < 256 ^ Z.of_nat (length bs)) by (apply Z.pow_pos_nonneg; lia).
    nia.
Qed.

Lemma from_bytes_bound (bs : list byte) : 0 <= from_bytes bs < 256 ^ len bs.
Proof.
  pose proof (fold_bytes_bound bs 0 ltac:(lia)) as H. unfold from_bytes. lia.
Qed.

(** X1. [remove_random_chars] never raises: for every string and every
    count it returns a subsequence of the string that is shorter by
    [min(max(n, 0), len(s))] characters, after exactly that many draws
    from [secrets]. *)
Theorem remove_random_chars_total (s : str) (n : Z) w :
  exists s',
    remove_random_chars s n w = (ok s', advance (removed s n) 0 w) /\
    sublist s' s /\
    len s' = len s - Z.min (Z.max n 0) (len s).
Proof.
  destruct (remove_random_chars_spec s n w) as (s' & Hs' & Hlen & Hsub).
  exists s'. split; [exact Hs'|]. split; [exact Hsub|].
  unfold len, removed, len in *. lia.
Qed.

(** X2. [shuffle_string] never raises and returns a permutation of its
    argument; it takes [len(s) - 1] draws from the generator of
    [random] (none for the empty string) and none from [secrets]. *)
Theorem shuffle_string_permutes (s : str) w :
  exists s',
    shuffle_string s w = (ok s', advance 0 (length s - 1) w) /\
    s' ≡ₚ s /\ length s' = length s.
Proof.
  destruct (shuffle_string_spec s w) as (s' & Hs' & Hperm).
  exists s'. split; [exact Hs'|]. split; [exact Hperm|]. rewrite Hperm. reflexivity.
Qed.

Lemma multiply_loop_factor (k : nat) (v : Z) w :
  exists m,
    multiply_loop k v w = (ok (v * m), advance k 0 w) /\
    1 <= m <= (2 ^ 32) ^ Z.of_nat k.
Proof.
  revert v w. induction k as [|k IH]; intros v w.
  - exists 1. rewrite advance_0, Z.mul_1_r. split; [reflexivity | cbn; lia].
  - destruct (randbelow_spec (Z.shiftl 1 32) w eq_refl) as (r & Hr & Hrange).
    change (Z.shiftl 1 32) with (2 ^ 32) in Hrange.
    destruct (IH (v * (r + 1)) (advance 1 0 w)) as (m & Hm & Hlo & Hhi).
    exists ((r + 1) * m). split.
    + cbn [multiply_loop]. rewrite (bind_returns _ _ _ _ _ Hr), Hm, advance_advance.
      rewrite Z.mul_assoc. reflexivity.
    + rewrite Nat2Z.inj_succ, Z.pow_succ_r by lia. nia.
Qed.

(** X3. [multiply_by_random] never raises: it returns [value] times a
    factor between 1 and [2 ^ (32 * times)], after [times] draws (none
    when [times <= 0]); so zero stays zero and the sign is kept. *)
Theorem multiply_by_random_factor (v times : Z) w :
  exists m,
    multiply_by_random v times w = (ok (v * m), advance (Z.to_nat times) 0 w) /\
    1 <= m <= (2 ^ 32) ^ Z.max 0 times.
Proof.
  destruct (multiply_loop_factor (range_count times) v w) as (m & Hm & Hrange).
  exists m. split; [exact Hm|].
  unfold range_count in Hrange. replace (Z.max 0 times) with (Z.of_nat (Z.to_nat times)) by lia.
  exact Hrange.
Qed.

Lemma add_loop_offset (k : nat) (v : Z) w :
  exists a,
    add_loop k v w = (ok (v + a), advance k 0 w) /\
    0 <= a <= (2 ^ 32 - 1) * Z.of_nat k.
Proof.
  revert v w. induction k as [|k IH]; intros v w.
  - exists 0. rewrite advance_0, Z.add_0_r. split; [reflexivity | lia].
  - destruct (randbelow_spec (Z.shiftl 1 32) w eq_refl) as (r & Hr & Hrange).
    change (Z.shiftl 1 32) with (2 ^ 32) in Hrange.
    destruct (IH (v + r) (advance 1 0 w)) as (a & Ha & Hlo & Hhi).
    exists (r + a). split.
    + cbn [add_loop]. rewrite (bind_returns _ _ _ _ _ Hr), Ha, advance_advance.
      rewrite Z.add_assoc. reflexivity.
    + lia.
Qed.

(** X4. [add_random] never raises: it returns [value] plus an offset
    between 0 and [times * (2 ^ 32 - 1)], after [times] draws (none when
    [times <= 0]); the value never decreases. *)
Theorem add_random_offset (v times : Z) w :
  exists a,
    add_random v times w = (ok (v + a), advance (Z.to_nat times) 0 w) /\
    0 <= a <= (2 ^ 32 - 1) * Z.max 0 times.
Proof.
  destruct (add_loop_offset (range_count times) v w) as (a & Ha & Hrange).
  exists a. split; [exact Ha|]. unfold range_count in Hrange. lia.
Qed.

Lemma hash_round_value (v n : Z) (a : alg) :
  0 <= v -> 2 <= n -> digest_fits n = true ->
  rbind (encode v) (fun bs => rbind (shake_hash bs n a) int16)
    = ok (from_bytes (digest a (be_bytes (Z.to_nat (byte_len v)) v) (Z.to_nat (n / 2)))).
Proof.
  intros Hv Hn Hfit. rewrite (encode_nonneg v Hv). cbn [rbind ok].
  rewrite shake_hash_nonneg by (lia || exact Hfit). cbn [rbind ok].
  apply int16_hexlify, len_nonempty.
  assert (1 <= n / 2) by (apply Z.div_le_lower_bound; lia).
  unfold len. rewrite digest_length. lia.
Qed.

(** The last iteration of the loop, taken apart from those before it. *)
Lemma hashing_loop_snoc (k : nat) (v n : Z) (a : alg) :
  hashing_loop (S k) v n a
    = rbind (hashing_loop k v n a)
        (fun u => rbind (encode u) (fun bs => rbind (shake_hash bs n a) int16)).
Proof.
  revert v. induction k as [|k IH]; intros v.
  - cbn [hashing_loop rbind ok].
    destruct (encode v) as [e|bs]; [reflexivity|]. cbn [rbind].
    destruct (shake_hash bs n a) as [e|h]; [reflexivity|]. cbn [rbind].
    destruct (int16 h) as [e|v']; reflexivity.
  - change (hashing_loop (S (S k)) v n a)
      with (rbind (encode v) (fun bs =>
            rbind (shake_hash bs n a) (fun h =>
            rbind (int16 h) (fun value' => hashing_loop (S k) value' n a)))).
    change (hashing_loop (S k) v n a)
      with (rbind (encode v) (fun bs =>
            rbind (shake_hash bs n a) (fun h =>
            rbind (int16 h) (fun value' => hashing_loop k value' n a)))).
    destruct (encode v) as [e|bs]; [reflexivity|]. cbn [rbind].
    destruct (shake_hash bs n a) as [e|h]; [reflexivity|]. cbn [rbind].
    destruct (int16 h) as [e|v']; [reflexivity|]. cbn [rbind].
    apply IH.
Qed.

(** X5. With a non-negative value, a digest length of at least 2 that
    fits, and at least one iteration, [repeated_hashing] returns the
    big-endian integer of the [hash_len_chars // 2] digest bytes of its
    last iteration: the digest of the encoding of [u], the value that
    [loops - 1] iterations give.  The result is below
    [256 ^ (hash_len_chars // 2)]. *)
Theorem repeated_hashing_value (v n loops : Z) (a : alg) :
  0 <= v -> 2 <= n -> digest_fits n = true -> 0 < loops ->
  exists u bs r,
    repeated_hashing v n (loops - 1) a = ok u /\
    0 <= u /\ encode u = ok bs /\
    repeated_hashing v n loops a = ok r /\
    r = from_bytes (digest a bs (Z.to_nat (n / 2))) /\
    0 <= r < 256 ^ (n / 2).
Proof.
  intros Hv Hn Hfit Hl. unfold repeated_hashing, range_count.
  replace (Z.to_nat loops) with (S (Z.to_nat (loops - 1))) by lia.
  destruct (hashing_loop_spec (Z.to_nat (loops - 1)) v n a Hv Hn Hfit) as (u & Hu & Hpos).
  eexists u, _, _. split; [exact Hu|]. split; [exact Hpos|].
  split; [apply encode_nonneg; exact Hpos|]. split.
  { rewrite hashing_loop_snoc, Hu. cbn [rbind ok].
    apply hash_round_value; assumption. }
  split; [reflexivity|].
  assert (1 <= n / 2) by (apply Z.div_le_lower_bound; lia).
  match goal with |- 0 <= from_bytes ?d < _ => pose proof (from_bytes_bound d) as Hb end.
  unfold len in Hb. rewrite digest_length, Z2Nat.id in Hb by lia. exact Hb.
Qed.

(** X6. A negative value cannot be encoded: with at least one iteration,
    [repeated_hashing] raises [OverflowError], whatever the length and
    the variant. *)
Theorem repeated_hashing_negative (v n loops : Z) (a : alg) :
  v < 0 -> 0 < loops -> repeated_hashing v n loops a = raise OverflowError.
Proof.
  intros Hv Hl. unfold repeated_hashing, range_count.
  destruct (Z.to_nat loops) as [|k] eqn:Ek; [lia|].
  cbn [hashing_loop]. rewrite (encode_negative v Hv). reflexivity.
Qed.

(** X7. A digest length of 0 or 1 asks for no bytes: with a non-negative
    value and at least one iteration, [repeated_hashing] raises the
    [ValueError] of [int("", 16)]. *)
Theorem repeated_hashing_empty_digest (v n loops : Z) (a : alg) :
  0 <= v -> 0 <= n < 2 -> 0 < loops ->
  repeated_hashing v n loops a = raise ValueError.
Proof.
  intros Hv Hn Hl. unfold repeated_hashing, range_count.
  destruct (Z.to_nat loops) as [|k] eqn:Ek; [lia|].
  cbn [hashing_loop]. rewrite (encode_nonneg v Hv). cbn [rbind ok].
  rewrite shake_hash_nonneg by (lia || (apply digest_fits_small; lia)).
  assert (n / 2 = 0) as -> by (apply Z.div_small; lia).
  reflexivity.
Qed.

(** X8. On a non-negative value and a positive divisor,
    [sqrt_and_divide] returns the largest [r] with
    [(divisor * r) ^ 2 <= value]. *)
Theorem sqrt_and_divide_bounds (v d : Z) :
  0 <= v -> 0 < d ->
  exists r,
    sqrt_and_divide v d = ok r /\ 0 <= r /\
    (d * r) ^ 2 <= v < (d * (r + 1)) ^ 2.
Proof.
  intros Hv Hd. destruct (sqrt_and_divide_spec v d Hv Hd) as (Hr & Hpos).
  exists (Z.sqrt v / d). split; [exact Hr|]. split; [exact Hpos|].
  pose proof (Z.sqrt_spec v Hv) as Hs. cbv zeta in Hs.
  pose proof (Z.sqrt_nonneg v) as Hs0.
  pose proof (Z.div_mod (Z.sqrt v) d ltac:(lia)) as Hdm.
  pose proof (Z.mod_pos_bound (Z.sqrt v) d Hd) as Hm.
  set (q := Z.sqrt v / d) in *. set (t := Z.sqrt v) in *.
  rewrite !Z.pow_2_r. split; nia.
Qed.

(** ** The result of a pass *)

Lemma take_hexlify (k : nat) (bs : list byte) :
  take (2 * k) (hexlify bs) = hexlify (take k bs).
Proof.
  revert bs. induction k as [|k IH]; intros bs; [reflexivity|].
  destruct bs as [|b bs]; [reflexivity|].
  replace (2 * S k)%nat with (S (S (2 * k))) by lia.
  cbn [hexlify flat_map app take]. change (flat_map _ bs) with (hexlify bs).
  change (flat_map _ (take k bs)) with (hexlify (take k bs)).
  rewrite IH. reflexivity.
Qed.

Lemma digest_take (a : alg) (data : list byte) (k n : nat) :
  take k (digest a data n) = digest a data (Nat.min k n).
Proof. unfold digest. rewrite firstn_map, take_seq. reflexivity. Qed.

Lemma digest_snoc (a : alg) (data : list byte) (m : nat) :
  digest a data (S m) = digest a data m ++ [squeeze a data m].
Proof. unfold digest. rewrite seq_S, map_app. reflexivity. Qed.

Lemma from_bytes_last (bs : list byte) (b : byte) :
  from_bytes (bs ++ [b]) mod 256 = Z_of_byte b.
Proof.
  rewrite from_bytes_snoc. pose proof (Z_of_byte_range b).
  rewrite Z.add_comm, Z.mod_add by lia. apply Z.mod_small. lia.
Qed.

(** The byte of the last digest that a pass returns. *)
Lemma reduce_last_byte (cfg : PipelineConfig) (v : Z) w :
  0 <= v -> 2 <= hash4_len cfg -> digest_fits (hash4_len cfg) = true ->
  final_div cfg <> 0 ->
  reduce cfg v w
    = (ok (Z_of_byte (squeeze shake_256 (be_bytes (Z.to_nat (byte_len v)) v)
                        (Z.to_nat (Z.min (hash4_len cfg / 2) 2048) - 1))), w).
Proof.
  intros Hv H4 F4 Hd.
  assert (1 <= hash4_len cfg / 2) as Hk by (apply Z.div_le_lower_bound; lia).
  set (bs := be_bytes (Z.to_nat (byte_len v)) v).
  set (K := Z.to_nat (hash4_len cfg / 2)).
  unfold reduce, floordiv.
  rewrite (encode_nonneg v Hv), bind_lift_ok. fold bs.
  rewrite shake_hash_nonneg by (lia || exact F4). fold K. rewrite bind_lift_ok.
  rewrite int16_hexlify, bind_lift_ok
    by (apply len_nonempty; unfold len; rewrite digest_length; lia).
  destruct (final_div cfg =? 0) eqn:E; [apply Z.eqb_eq in E; contradiction|].
  rewrite bind_lift_ok. cbv zeta.
  assert (slice_to 4096 (hexlify (digest shake_256 bs K))
          = hexlify (digest shake_256 bs (Nat.min 2048 K))) as ->.
  { unfold slice_to. change (4096 <? 0) with false. cbv iota.
    change (Z.to_nat 4096) with (2 * 2048)%nat.
    rewrite take_hexlify, digest_take. reflexivity. }
  replace (Nat.min 2048 K) with (S (Z.to_nat (Z.min (hash4_len cfg / 2) 2048) - 1))
    by (unfold K; lia).
  rewrite int16_hexlify, bind_lift_ok
    by (apply len_nonempty; unfold len; rewrite digest_length; lia).
  rewrite digest_snoc, from_bytes_last. reflexivity.
Qed.

(** X9. In a pass that completes (digest lengths of at least 2 that
    fit), the result is one byte of its last SHAKE-256 digest: the
    digest's last byte when [hash4_len <= 4097], and byte 2047 (the
    last one that survives the cut at 4096 characters) otherwise. *)
Theorem pass_returns_digest_byte (cfg : PipelineConfig) (v : Z) w :
  0 <= v -> 2 <= hash1_len cfg -> 2 <= hash2_len cfg -> 2 <= hash4_len cfg ->
  lengths_fit cfg = true ->
  remove_chars cfg < 2 * (hash2_len cfg / 2) -> final_div cfg <> 0 ->
  exists v' bs w',
    mix cfg v w = (ok v', w') /\ encode v' = ok bs /\
    pass cfg v w
      = (ok (Z_of_byte (squeeze shake_256 bs
                          (Z.to_nat (Z.min (hash4_len cfg / 2) 2048) - 1))), w').
Proof.
  intros Hv H1 H2 H4 Hfit Hrc Hd.
  apply lengths_fit_spec in Hfit as (F1 & F2 & F4).
  destruct (mix_spec cfg v w Hv H1 F1 H2 F2 Hrc) as (v' & Hmix & Hpos).
  eexists v', _, _. split; [exact Hmix|]. split; [apply encode_nonneg; exact Hpos|].
  unfold pass. rewrite (bind_returns _ _ _ _ _ Hmix).
  apply reduce_last_byte; assumption.
Qed.

(** X10. A run that completes (digest lengths of at least 2 that fit,
    [remove_chars] below [hash2_len], a divisor that is not zero)
    makes, in each pass,
    [mul_times + add_times + remove_chars + 1] draws from [secrets]
    (negative counts counting as zero) and one draw of the shuffling
    generator for each character of [h4] but the first. *)
Theorem pipeline_draw_count (cfg : PipelineConfig) (v : Z) w :
  0 <= v -> 0 < loops cfg ->
  2 <= hash1_len cfg -> 2 <= hash2_len cfg -> 2 <= hash4_len cfg ->
  lengths_fit cfg = true ->
  remove_chars cfg < 2 * (hash2_len cfg / 2) -> final_div cfg <> 0 ->
  exists r w',
    pipeline cfg v w = (ok r, w') /\
    Z.of_nat (secure_draws w') =
      Z.of_nat (secure_draws w)
      + loops cfg * (Z.max 0 (mul_times cfg) + Z.max 0 (add_times cfg)
                     + Z.max 0 (remove_chars cfg) + 1) /\
    Z.of_nat (prng_draws w') =
      Z.of_nat (prng_draws w) + loops cfg * (2 * (hash1_len cfg / 2) - 1).
Proof.
  intros Hv Hl H1 H2 H4 Hfit Hrc Hd.
  destruct (pipeline_spec cfg v w Hv Hl H1 H2 H4 Hfit Hrc Hd) as (r & Hr & _).
  assert (1 <= hash1_len cfg / 2) by (apply Z.div_le_lower_bound; lia).
  eexists r, _. split; [exact Hr|].
  unfold advance, secure_per_pass, prng_per_pass. cbn [secure_draws prng_draws].
  split; nia.
Qed.

(** ** When a pass fails *)

Lemma usable_dec (n : Z) :
  {2 <= n /\ digest_fits n = true} + {~ (2 <= n /\ digest_fits n = true)}.
Proof.
  destruct (Z_lt_le_dec n 2) as [Hlt | Hle]; [right; lia|].
  destruct (digest_fits n); [left | right]; intuition congruence.
Qed.

(** A length that is not usable gives the empty digest or is refused. *)
Lemma shake_hash_unusable (data : list byte) (n : Z) (a : alg) :
  ~ (2 <= n /\ digest_fits n = true) ->
  shake_hash data n a = ok [] \/
  exists e, shake_hash data n a = raise e /\
            (e = OverflowError \/ e = MemoryError) /\ refused n.
Proof.
  intros Hn. destruct (Z_lt_le_dec n 0) as [Hneg | Hpos].
  - right. assert (refused n) as Hr by (unfold refused; lia).
    destruct (shake_hash_refused data n a Hr) as (e & He & Hk). eauto.
  - destruct (digest_fits n) eqn:F.
    + left. rewrite shake_hash_nonneg by assumption.
      assert (n / 2 = 0) as -> by (apply Z.div_small; lia). reflexivity.
    + right. assert (refused n) as Hr by (unfold refused; intros [_ H]; congruence).
      destruct (shake_hash_refused data n a Hr) as (e & He & Hk). eauto.
Qed.

Lemma hashing_loop_unusable (k : nat) (v n : Z) (a : alg) :
  0 <= v -> ~ (2 <= n /\ digest_fits n = true) ->
  exists e, hashing_loop (S k) v n a = raise e /\
            (e = ValueError \/ (e = OverflowError \/ e = MemoryError) /\ refused n).
Proof.
  intros Hv Hn. cbn [hashing_loop]. rewrite (encode_nonneg v Hv). cbn [rbind ok].
  destruct (shake_hash_unusable (be_bytes (Z.to_nat (byte_len v)) v) n a Hn)
    as [-> | (e & -> & Hk & Hr)].
  - exists ValueError. split; [reflexivity | auto].
  - exists e. split; [reflexivity | auto].
Qed.

Lemma mix_unusable_hash1 (cfg : PipelineConfig) (v : Z) w :
  0 <= v -> ~ (2 <= hash1_len cfg /\ digest_fits (hash1_len cfg) = true) ->
  exists e w', mix cfg v w = (raise e, w') /\ expected_error cfg e.
Proof.
  intros Hv H1.
  destruct (multiply_loop_spec (range_count (mul_times cfg)) v w Hv)
    as (v1 & Hm & Hv1).
  destruct (add_loop_spec (range_count (add_times cfg)) v1
              (advance (range_count (mul_times cfg)) 0 w) Hv1) as (v2 & Ha & Hv2).
  unfold mix, multiply_by_random, add_random, repeated_hashing, expected_error.
  rewrite (bind_returns _ _ _ _ _ Hm), (bind_returns _ _ _ _ _ Ha).
  destruct (range_count (hash1_loops cfg)) as [|k].
  2:{ destruct (hashing_loop_unusable k v2 _ shake_256 Hv2 H1) as (e & -> & Hk).
      exists e. eexists. split; [reflexivity | tauto]. }
  cbn [hashing_loop]. rewrite bind_lift_ok. change (range_count 1) with 1%nat.
  destruct (usable_dec (hash2_len cfg)) as [[H2 F2] | H2].
  2:{ destruct (hashing_loop_unusable 0 v2 _ shake_128 Hv2 H2) as (e & -> & Hk).
      exists e. eexists. split; [reflexivity | tauto]. }
  destruct (hashing_loop_spec 1 v2 (hash2_len cfg) shake_128 Hv2 H2 F2)
    as (v4 & Hr2 & Hv4).
  destruct (sqrt_and_divide_spec v4 4 Hv4 eq_refl) as (Hsq & Hv5).
  rewrite Hr2, bind_lift_ok, Hsq, bind_lift_ok, (encode_nonneg _ Hv5), bind_lift_ok.
  destruct (shake_hash_unusable (be_bytes (Z.to_nat (byte_len (Z.sqrt v4 / 4))) (Z.sqrt v4 / 4))
              (hash1_len cfg) shake_256 H1) as [-> | (e & -> & Hk & Hr)].
  - exists ValueError. eexists. split; [reflexivity | tauto].
  - exists e. eexists. split; [reflexivity | tauto].
Qed.

Lemma mix_unusable_hash2 (cfg : PipelineConfig) (v : Z) w :
  0 <= v -> 2 <= hash1_len cfg -> digest_fits (hash1_len cfg) = true ->
  ~ (2 <= hash2_len cfg /\ digest_fits (hash2_len cfg) = true) ->
  exists e w', mix cfg v w = (raise e, w') /\ expected_error cfg e.
Proof.
  intros Hv H1 F1 H2.
  destruct (multiply_loop_spec (range_count (mul_times cfg)) v w Hv)
    as (v1 & Hm & Hv1).
  destruct (add_loop_spec (range_count (add_times cfg)) v1
              (advance (range_count (mul_times cfg)) 0 w) Hv1) as (v2 & Ha & Hv2).
  destruct (hashing_loop_spec (range_count (hash1_loops cfg)) v2 (hash1_len cfg)
              shake_256 Hv2 H1 F1) as (v3 & Hr1 & Hv3).
  unfold mix, multiply_by_random, add_random, repeated_hashing, expected_error.
  rewrite (bind_returns _ _ _ _ _ Hm), (bind_returns _ _ _ _ _ Ha).
  rewrite Hr1, bind_lift_ok. change (range_count 1) with 1%nat.
  destruct (hashing_loop_unusable 0 v3 _ shake_128 Hv3 H2) as (e & -> & Hk).
  exists e. eexists. split; [reflexivity | tauto].
Qed.

Lemma reduce_unusable_hash4 (cfg : PipelineConfig) (v : Z) w :
  0 <= v -> ~ (2 <= hash4_len cfg /\ digest_fits (hash4_len cfg) = true) ->
  exists e, reduce cfg v w = (raise e, w) /\ expected_error cfg e.
Proof.
  intros Hv H4. unfold reduce, expected_error.
  rewrite (encode_nonneg v Hv), bind_lift_ok.
  destruct (shake_hash_unusable (be_bytes (Z.to_nat (byte_len v)) v)
              (hash4_len cfg) shake_256 H4) as [-> | (e & -> & Hk & Hr)].
  - exists ValueError. split; [reflexivity | tauto].
  - exists e. split; [reflexivity | tauto].
Qed.

Lemma completes_true (cfg : PipelineConfig) :
  completes cfg = true <->
  2 <= hash1_len cfg /\ 2 <= hash2_len cfg /\ 2 <= hash4_len cfg /\
  lengths_fit cfg = true /\
  remove_chars cfg < 2 * (hash2_len cfg / 2) /\ final_div cfg <> 0.
Proof.
  unfold completes. rewrite !andb_true_iff, negb_true_iff, !Z.leb_le, Z.ltb_lt, Z.eqb_neq.
  tauto.
Qed.

(** A pass from a non-negative value: a byte when the configuration
    completes, and one of the expected exceptions otherwise. *)
Lemma pass_outcome (cfg : PipelineConfig) (v : Z) w :
  0 <= v ->
  exists w',
    (completes cfg = true /\ exists r, pass cfg v w = (ok r, w') /\ 0 <= r <= 255) \/
    (completes cfg = false /\
     exists e, pass cfg v w = (raise e, w') /\ expected_error cfg e).
Proof.
  intros Hv.
  destruct (completes cfg) eqn:Ec.
  { apply completes_true in Ec as (H1 & H2 & H4 & Hfit & Hrc & Hd).
    destruct (pass_spec cfg v w Hv H1 H2 H4 Hfit Hrc Hd) as (r & Hr & Hrange).
    eexists. left. split; [reflexivity|]. eauto. }
  assert (~ (2 <= hash1_len cfg /\ 2 <= hash2_len cfg /\ 2 <= hash4_len cfg /\
             lengths_fit cfg = true /\
             remove_chars cfg < 2 * (hash2_len cfg / 2) /\ final_div cfg <> 0)) as Hn.
  { intros H. apply completes_true in H. congruence. }
  unfold pass.
  destruct (usable_dec (hash1_len cfg)) as [[H1 F1] | H1].
  2:{ destruct (mix_unusable_hash1 cfg v w Hv H1) as (e & w' & Hmix & Hk).
      exists w'. right. split; [reflexivity|]. exists e.
      split; [apply bind_raises; exact Hmix | exact Hk]. }
  destruct (usable_dec (hash2_len cfg)) as [[H2 F2] | H2].
  2:{ destruct (mix_unusable_hash2 cfg v w Hv H1 F1 H2) as (e & w' & Hmix & Hk).
      exists w'. right. split; [reflexivity|]. exists e.
      split; [apply bind_raises; exact Hmix | exact Hk]. }
  destruct (Z_lt_le_dec (remove_chars cfg) (2 * (hash2_len cfg / 2))) as [Hrc | Hrc].
  2:{ eexists. right. split; [reflexivity|]. exists ValueError.
      split; [apply bind_raises, mix_empty_trim; assumption | left; reflexivity]. }
  destruct (mix_spec cfg v w Hv H1 F1 H2 F2 Hrc) as (v' & Hmix & Hpos).
  eexists. right. split; [reflexivity|].
  rewrite (bind_returns _ _ _ _ _ Hmix).
  destruct (usable_dec (hash4_len cfg)) as [[H4 F4] | H4].
  2:{ apply reduce_unusable_hash4; assumption. }
  destruct (Z.eq_dec (final_div cfg) 0) as [Hd | Hd].
  - exists ZeroDivisionError.
    split; [apply reduce_zero_divisor; assumption | right; left; auto].
  - exfalso. apply Hn. repeat split; try assumption.
    apply lengths_fit_spec. auto.
Qed.

(** X11. For a non-negative seed and [loops >= 1], [pipeline] returns a
    value exactly when the three digest lengths are at least 2 and fit,
    [remove_chars] is below [hash2_len] rounded down to even, and
    [final_div] is not zero; in every other case it raises. *)
Theorem pipeline_returns_iff (cfg : PipelineConfig) (v : Z) w :
  0 <= v -> 0 < loops cfg ->
  (exists r w', pipeline cfg v w = (ok r, w')) <->
  (2 <= hash1_len cfg /\ 2 <= hash2_len cfg /\ 2 <= hash4_len cfg /\
   lengths_fit cfg = true /\
   remove_chars cfg < 2 * (hash2_len cfg / 2) /\ final_div cfg <> 0).
Proof.
  intros Hv Hl. split.
  - intros (r & w' & Hr). apply completes_true.
    destruct (pass_outcome cfg v w Hv) as (w1 & [(Hc & _) | (_ & e & He & _)]);
      [exact Hc|].
    unfold pipeline, range_count in Hr.
    destruct (Z.to_nat (loops cfg)) as [|k] eqn:Ek; [lia|].
    cbn [passes] in Hr. rewrite (bind_raises _ _ _ _ _ He) in Hr. discriminate Hr.
  - intros (H1 & H2 & H4 & Hfit & Hrc & Hd).
    destruct (pipeline_spec cfg v w Hv Hl H1 H2 H4 Hfit Hrc Hd) as (r & Hr & _). eauto.
Qed.

Lemma passes_error_kinds (cfg : PipelineConfig) (k : nat) (v : Z) w e w' :
  0 <= v -> passes (pass cfg) k v w = (raise e, w') -> expected_error cfg e.
Proof.
  revert v w. induction k as [|k IH]; intros v w Hv Hr; [discriminate Hr|].
  cbn [passes] in Hr.
  destruct (pass_outcome cfg v w Hv) as (w1 & [(_ & r & Hp & Hrange) | (_ & e1 & Hp & Hk)]).
  - rewrite (bind_returns _ _ _ _ _ Hp) in Hr. apply (IH r w1); [lia | exact Hr].
  - rewrite (bind_raises _ _ _ _ _ Hp) in Hr. inversion Hr; subst. exact Hk.
Qed.

(** X12. On a non-negative seed, an exception that [pipeline] raises is
    [ValueError]; or [ZeroDivisionError], and then [final_div] is zero;
    or the [OverflowError] or [MemoryError] of [hexdigest], and then one
    of the three digest lengths is negative or does not fit.  So
    [pop] never raises [IndexError], and with lengths that [hexdigest]
    accepts there is no [OverflowError] or [MemoryError] either. *)
Theorem pipeline_error_kinds (cfg : PipelineConfig) (v : Z) w e w' :
  0 <= v -> pipeline cfg v w = (raise e, w') ->
  e = ValueError \/
  (e = ZeroDivisionError /\ final_div cfg = 0) \/
  ((e = OverflowError \/ e = MemoryError) /\
   (~ (0 <= hash1_len cfg /\ digest_fits (hash1_len cfg) = true) \/
    ~ (0 <= hash2_len cfg /\ digest_fits (hash2_len cfg) = true) \/
    ~ (0 <= hash4_len cfg /\ digest_fits (hash4_len cfg) = true))).
Proof.
  intros Hv Hr. exact (passes_error_kinds cfg _ v w e w' Hv Hr).
Qed.

(** X13. A negative seed with [add_times <= 0] and [loops >= 1] stays
    negative through the multiplications and cannot be encoded: the
    pipeline raises [OverflowError] after the [mul_times] draws. *)
Theorem pipeline_negative_seed (cfg : PipelineConfig) (v : Z) w :
  v < 0 -> add_times cfg <= 0 -> 0 < loops cfg ->
  pipeline cfg v w = (raise OverflowError, advance (Z.to_nat (mul_times cfg)) 0 w).
Proof.
  intros Hv Ha Hl. unfold pipeline, range_count.
  destruct (Z.to_nat (loops cfg)) as [|k] eqn:Ek; [lia|].
  cbn [passes]. apply bind_raises. unfold pass. apply bind_raises.
  destruct (multiply_loop_factor (range_count (mul_times cfg)) v w) as (m & Hm & Hrange).
  assert (v * m < 0) as Hneg by nia.
  fold (multiply_by_random v (mul_times cfg)) in Hm.
  assert (forall w1, add_random (v * m) (add_times cfg) w1 = (ok (v * m), w1)) as Hadd.
  { intros w1. unfold add_random, range_count.
    replace (Z.to_nat (add_times cfg)) with O by lia. reflexivity. }
  unfold mix. rewrite (bind_returns _ _ _ _ _ Hm), (bind_returns _ _ _ _ _ (Hadd _)).
  unfold repeated_hashing.
  destruct (range_count (hash1_loops cfg)) as [|j].
  - cbn [hashing_loop]. rewrite bind_lift_ok. change (range_count 1) with 1%nat.
    cbn [hashing_loop]. rewrite (encode_negative _ Hneg). reflexivity.
  - cbn [hashing_loop]. rewrite (encode_negative _ Hneg). reflexivity.
Qed.

(** ** Passes in sequence *)

Lemma passes_app (f : Z -> M Z) (k1 k2 : nat) (v : Z) w :
  passes f (k1 + k2) v w = (let* x := passes f k1 v in passes f k2 x)%pipe w.
Proof.
  revert v w. induction k1 as [|k1 IH]; intros v w; [reflexivity|].
  cbn [passes Nat.add]. unfold bind.
  destruct (f v w) as [[e|v1] w1]; [reflexivity|]. rewrite IH. reflexivity.
Qed.

(** X14. Passes compose: running [a + b] loops is running [a] loops and
    then [b] loops on the result, the second run drawing from where the
    first one stopped; an exception of the first run ends both. *)
Theorem pipeline_loops_compose (cfg : PipelineConfig) (a b : Z) (v : Z) w :
  0 <= a -> 0 <= b ->
  pipeline (with_loops (a + b) cfg) v w
    = (let* x := pipeline (with_loops a cfg) v in pipeline (with_loops b cfg) x)%pipe w.
Proof.
  intros Ha Hb. unfold pipeline, range_count.
  change (loops (with_loops (a + b) cfg)) with (a + b).
  change (loops (with_loops a cfg)) with a.
  change (loops (with_loops b cfg)) with b.
  rewrite Z2Nat.inj_add by lia.
  change (pass (with_loops (a + b) cfg)) with (pass cfg).
  change (pass (with_loops a cfg)) with (pass cfg).
  change (pass (with_loops b cfg)) with (pass cfg).
  apply passes_app.
Qed.

(** X15. When [h4] has at most [2 * hash2_len] characters, and
    [hash2_len] fits, the slice is the whole shuffled string: all of
    its [len(h4) // 2] bytes are hashed, and the digest [h5] still has
    [hash2_len] characters (rounded down to even). *)
Theorem shuffle_and_rehash_short_digest (cfg : PipelineConfig) (h4 : str) (m : Z) w :
  forallb is_lower_hex h4 = true -> len h4 = 2 * m ->
  2 <= hash2_len cfg -> digest_fits (hash2_len cfg) = true -> m <= hash2_len cfg ->
  exists shuffled bs h5 v,
    shuffle_string h4 w = (ok shuffled, advance 0 (length h4 - 1) w) /\
    slice_to (hash2_len cfg * 2) shuffled = shuffled /\
    fromhex shuffled = ok bs /\ len bs = m /\
    shake_hash bs (hash2_len cfg) shake_128 = ok h5 /\
    len h5 = 2 * (hash2_len cfg / 2) /\
    shuffle_and_rehash cfg h4 w = (ok (h5, v), advance 0 (length h4 - 1) w).
Proof.
  intros Hhex Hlen H2 F2 Hm.
  assert (lower_hex h4) as Hhex'.
  { apply Forall_forall. intros c Hc. rewrite forallb_forall in Hhex.
    apply Hhex, list_elem_of_In, Hc. }
  destruct (shuffle_and_rehash_spec cfg h4 m w Hhex' Hlen H2 F2)
    as (sh & bs & h5 & v & Hsh & Hperm & Hbs & Hbl & Hh5 & _ & Hl5 & _ & _ & Hstep).
  assert (slice_to (hash2_len cfg * 2) sh = sh) as Hwhole.
  { unfold slice_to. destruct (hash2_len cfg * 2 <? 0) eqn:E; [apply Z.ltb_lt in E; lia|].
    apply take_ge. unfold len in Hlen. rewrite Hperm. lia. }
  exists sh, bs, h5, v. rewrite Hwhole in Hbs.
  repeat (split; [first [assumption | lia]|]). exact Hstep.
Qed.

(** ** The seed endpoint *)

(** X16. A request whose body has no ["key"], or a ["key"] that is not
    the string [API_KEY], is answered with the exception of status 403,
    and no randomness is drawn. *)
Theorem get_random_seed_rejects (data : gmap string json) w :
  data !! "key"%string <> Some (JStr API_KEY) ->
  get_random_seed data w
    = (ok (inl {| status_code := 403; detail := "Invalid API key" |}), w).
Proof.
  intros Hkey. unfold get_random_seed.
  destruct (data !! "key"%string) as [[| | |k|]|]; try reflexivity.
  cbn [differs_from]. destruct (String.eqb_spec k API_KEY) as [->|Hne];
    [congruence | reflexivity].
Qed.

(** X17. A request carrying the right key gets a dictionary whose only
    entry is ["random_value"], an integer in [0, 2^64), at the cost of
    one draw from [secrets]. *)
Theorem get_random_seed_grants (data : gmap string json) w :
  data !! "key"%string = Some (JStr API_KEY) ->
  exists r,
    get_random_seed data w
      = (ok (inr {[ "random_value"%string := JNum r ]}), advance 1 0 w) /\
    0 <= r < 2 ^ 64.
Proof.
  intros Hkey. exists (entropy (secure_draws w) mod 2 ^ 64). split.
  - unfold get_random_seed. rewrite Hkey. cbn [differs_from].
    rewrite String.eqb_refl. cbn [negb]. unfold bind, randbits, ret.
    change (64 <? 0) with false. cbv iota. unfold advance.
    do 2 f_equal; lia.
  - apply Z.mod_pos_bound. reflexivity.
Qed.

End Pipeline.

(** ** The model on concrete inputs *)

Example bit_length_values :
  bit_length 0 = 0 /\ bit_length 1 = 1 /\ bit_length 255 = 8 /\
  bit_length 256 = 9 /\ bit_length (2 ^ 64 - 1) = 64 /\ bit_length (2 ^ 64) = 65.
Proof. repeat split. Qed.

Example encode_values :
  encode 0 = ok [Byte.x00] /\ encode 1 = ok [Byte.x01] /\
  encode 255 = ok [Byte.xff] /\ encode 256 = ok [Byte.x01; Byte.x00] /\
  encode (2 ^ 64) = ok [Byte.x01; Byte.x00; Byte.x00; Byte.x00; Byte.x00; Byte.x00; Byte.x00; Byte.x00; Byte.x00].
Proof. repeat split. Qed.

Example parse_values :
  int16 ["0"; "0"; "f"; "f"]%char = ok 255 /\
  int16 [] = raise ValueError /\
  fromhex ["0"; "a"; "f"; "f"]%char = ok [Byte.x0a; Byte.xff] /\
  fromhex ["0"; "a"; "f"]%char = raise ValueError /\
  hexlify [Byte.x0a; Byte.xff] = ["0"; "a"; "f"; "f"]%char.
Proof. repeat split. Qed.

Example sample_run :
  pipeline sample_tape sample_tape sample_squeeze sample_capacity cfg_small 1 w0
    = (ok 16, {| secure_draws := 8; prng_draws := 14 |}).
Proof. vm_compute. reflexivity. Qed.

(** The seed comes back unchanged, here outside 0..255, when [loops] is
    not positive, even with a zero divisor. *)
Example no_loops_out_of_range :
  pipeline sample_tape sample_tape sample_squeeze sample_capacity cfg_no_loops 1000 w0 = (ok 1000, w0).
Proof. reflexivity. Qed.

(** With a zero divisor the two variants differ: the elided one returns. *)
Example elided_differs_on_zero_divisor :
  pipeline_elided sample_tape sample_tape sample_squeeze sample_capacity cfg_zero_div 1 w0
    = (ok 18, {| secure_draws := 4; prng_draws := 7 |}).
Proof. vm_compute. reflexivity. Qed.

(** ** Instances of the theorems *)

Lemma pipeline_byte_range_witness :
  valid_config cfg_small = true /\ lengths_fit sample_capacity cfg_small = true /\
  remove_chars cfg_small < hash2_len cfg_small /\ 0 <= 1 /\
  exists r w',
    pipeline sample_tape sample_tape sample_squeeze sample_capacity cfg_small 1 w0 = (ok r, w') /\
    0 <= r <= 255.
Proof.
  split; [reflexivity|]. split; [reflexivity|]. split; [reflexivity|]. split; [lia|].
  apply (pipeline_byte_range sample_tape sample_tape sample_squeeze sample_capacity
           cfg_small 1 w0);
    [reflexivity | reflexivity | reflexivity | lia].
Defined.

(** C1, as stated, fails: an accepted configuration with the default
    [remove_chars = 10] and [hash2_len = 2] raises [ValueError]. *)
Lemma valid_config_raises :
  valid_config cfg_short_digest = true /\ 0 <= 1 /\
  pipeline sample_tape sample_tape sample_squeeze sample_capacity cfg_short_digest 1 w0
    = (raise ValueError, {| secure_draws := 4; prng_draws := 7 |}) /\
  ~ (exists r w',
       pipeline sample_tape sample_tape sample_squeeze sample_capacity cfg_short_digest 1 w0 = (ok r, w') /\
       0 <= r <= 255).
Proof.
  split; [reflexivity|]. split; [lia|]. split; [vm_compute; reflexivity|].
  intros (r & w' & H & _). vm_compute in H. discriminate H.
Qed.

Lemma pipeline_zero_divisor_witness :
  valid_shape cfg_zero_div = true /\ lengths_fit sample_capacity cfg_zero_div = true /\
  final_div cfg_zero_div = 0 /\
  remove_chars cfg_zero_div < hash2_len cfg_zero_div /\ 0 <= 1 /\
  pipeline sample_tape sample_tape sample_squeeze sample_capacity cfg_zero_div 1 w0
    = (raise ZeroDivisionError,
       advance (secure_per_pass cfg_zero_div) (prng_per_pass cfg_zero_div) w0) /\
  (0 < secure_per_pass cfg_zero_div)%nat.
Proof.
  split; [reflexivity|]. split; [reflexivity|]. split; [reflexivity|].
  split; [reflexivity|]. split; [lia|].
  apply (pipeline_zero_divisor sample_tape sample_tape sample_squeeze sample_capacity
           cfg_zero_div 1 w0);
    [reflexivity | reflexivity | reflexivity | reflexivity | lia].
Defined.

(** C2, as stated, fails: with [final_div = 0] the run is not refused
    beforehand; it stops at the division of its first pass, four secure
    draws and seven shuffle draws later. *)
Lemma zero_divisor_fails_mid_pipeline :
  valid_shape cfg_zero_div = true /\ final_div cfg_zero_div = 0 /\
  pipeline sample_tape sample_tape sample_squeeze sample_capacity cfg_zero_div 1 w0
    = (raise ZeroDivisionError, {| secure_draws := 4; prng_draws := 7 |}) /\
  mix sample_tape sample_tape sample_squeeze sample_capacity cfg_zero_div 1 w0
    = (ok 67909743, {| secure_draws := 4; prng_draws := 7 |}).
Proof.
  split; [reflexivity|]. split; [reflexivity|]. split; vm_compute; reflexivity.
Qed.

Lemma remove_all_then_parse_witness :
  valid_config cfg_remove_all = true /\ lengths_fit sample_capacity cfg_remove_all = true /\
  0 <= 5 /\
  (forall s n w1, len s <= n ->
     remove_random_chars sample_tape s n w1 = (ok [], advance (length s) 0 w1)) /\
  int16 [] = raise ValueError /\
  (remove_chars cfg_remove_all < hash2_len cfg_remove_all ->
     exists r,
       pipeline sample_tape sample_tape sample_squeeze sample_capacity cfg_remove_all 5 w0
         = (ok r, advance (Z.to_nat (loops cfg_remove_all) * secure_per_pass cfg_remove_all)
                          (Z.to_nat (loops cfg_remove_all) * prng_per_pass cfg_remove_all) w0) /\
       0 <= r <= 255) /\
  (hash2_len cfg_remove_all <= remove_chars cfg_remove_all ->
     let w1 :=
       advance (Z.to_nat (mul_times cfg_remove_all) + Z.to_nat (add_times cfg_remove_all)
                + Z.to_nat (hash2_len cfg_remove_all)) (prng_per_pass cfg_remove_all) w0 in
     mix sample_tape sample_tape sample_squeeze sample_capacity cfg_remove_all 5 w0
       = (raise ValueError, w1) /\
     pass sample_tape sample_tape sample_squeeze sample_capacity cfg_remove_all 5 w0
       = (raise ValueError, w1) /\
     pipeline sample_tape sample_tape sample_squeeze sample_capacity cfg_remove_all 5 w0
       = (raise ValueError, w1)).
Proof.
  split; [reflexivity|]. split; [reflexivity|]. split; [lia|].
  apply (remove_all_then_parse sample_tape sample_tape sample_squeeze sample_capacity
           cfg_remove_all 5 w0);
    [reflexivity | reflexivity | lia].
Defined.

(** C3, as stated, fails: an accepted configuration that deletes all
    four characters of [h5] raises the [ValueError] of [int("", 16)]. *)
Lemma empty_trim_raises :
  valid_config cfg_remove_all = true /\
  hash2_len cfg_remove_all <= remove_chars cfg_remove_all /\
  remove_random_chars sample_tape ["c"; "c"; "e"; "b"]%char (remove_chars cfg_remove_all) w0
    = (ok [], {| secure_draws := 4; prng_draws := 0 |}) /\
  pipeline sample_tape sample_tape sample_squeeze sample_capacity cfg_remove_all 5 w0
    = (raise ValueError, {| secure_draws := 7; prng_draws := 15 |}).
Proof.
  split; [reflexivity|]. split; [simpl; lia|].
  split; vm_compute; reflexivity.
Qed.

Lemma division_is_dead_witness :
  final_div cfg_small <> 0 /\
  pipeline sample_tape sample_tape sample_squeeze sample_capacity cfg_small 1 w0
    = pipeline_elided sample_tape sample_tape sample_squeeze sample_capacity cfg_small 1 w0.
Proof.
  split; [simpl; lia|].
  apply (division_is_dead sample_tape sample_tape sample_squeeze sample_capacity cfg_small 1 w0).
  simpl; lia.
Defined.

Lemma encode_minimal_big_endian_witness :
  0 <= 256 /\
  exists bs,
    encode 256 = ok bs /\ from_bytes bs = 256 /\
    (256 = 0 -> bs = [Byte.x00]) /\
    (0 < 256 ->
       len bs = (bit_length 256 + 7) / 8 /\
       8 * (len bs - 1) < bit_length 256 <= 8 * len bs /\
       (exists b tl, bs = b :: tl /\ b <> Byte.x00) /\
       (forall n, n < len bs -> exists e, to_bytes 256 n = raise e)).
Proof.
  split; [lia|]. apply (encode_minimal_big_endian 256). lia.
Defined.

Lemma shake_hash_even_length_witness :
  0 < 8 /\ Z.even 8 = true /\ digest_fits sample_capacity 8 = true /\
  exists h,
    shake_hash sample_squeeze sample_capacity [Byte.x61; Byte.x62; Byte.x63] 8 shake_256 = ok h /\
    h = hexlify (digest sample_squeeze shake_256 [Byte.x61; Byte.x62; Byte.x63]
                   (Z.to_nat (8 / 2))) /\
    len (digest sample_squeeze shake_256 [Byte.x61; Byte.x62; Byte.x63]
           (Z.to_nat (8 / 2))) = 8 / 2 /\
    len h = 8 /\ lower_hex h.
Proof.
  split; [lia|]. split; [reflexivity|]. split; [reflexivity|].
  apply (shake_hash_even_length sample_squeeze sample_capacity
           [Byte.x61; Byte.x62; Byte.x63] 8 shake_256);
    [lia | reflexivity | reflexivity].
Defined.

(** C6, as stated, fails: [2^64] is even and positive, and the length
    [2^63] it asks for is not a C [ssize_t]. *)
Lemma shake_hash_even_length_overflows :
  0 < 2 ^ 64 /\ Z.even (2 ^ 64) = true /\
  shake_hash sample_squeeze sample_capacity [Byte.x61; Byte.x62; Byte.x63] (2 ^ 64) shake_256
    = raise OverflowError.
Proof. split; [reflexivity|]. split; reflexivity. Qed.

Lemma shake_hash_odd_length_witness :
  0 < 7 /\ Z.odd 7 = true /\ digest_fits sample_capacity 7 = true /\
  exists h,
    shake_hash sample_squeeze sample_capacity [] 7 shake_128 = ok h /\
    h = hexlify (digest sample_squeeze shake_128 [] (Z.to_nat (7 / 2))) /\
    2 * (7 / 2) = 7 - 1 /\
    len h = 7 - 1 /\ lower_hex h.
Proof.
  split; [lia|]. split; [reflexivity|]. split; [reflexivity|].
  apply (shake_hash_odd_length sample_squeeze sample_capacity [] 7 shake_128);
    [lia | reflexivity | reflexivity].
Defined.

(** C7, as stated, fails: [2^64 + 1] is odd and positive, and the
    length [2^63] it asks for is not a C [ssize_t]; no digest of
    [2^64] characters comes back. *)
Lemma shake_hash_odd_length_overflows :
  0 < 2 ^ 64 + 1 /\ Z.odd (2 ^ 64 + 1) = true /\
  shake_hash sample_squeeze sample_capacity [] (2 ^ 64 + 1) shake_128 = raise OverflowError.
Proof. split; [reflexivity|]. split; reflexivity. Qed.


Lemma pipeline_no_loops_witness :
  loops cfg_no_loops <= 0 /\
  pipeline sample_tape sample_tape sample_squeeze sample_capacity cfg_no_loops 1000 w0 = (ok 1000, w0) /\
  ~ 0 <= 1000 <= 255.
Proof.
  split; [simpl; lia|]. split; [|lia].
  apply (pipeline_no_loops sample_tape sample_tape sample_squeeze sample_capacity cfg_no_loops 1000 w0).
  simpl; lia.
Defined.

(** ** Instances of the further properties *)

Lemma repeated_hashing_value_witness :
  0 <= 5 /\ 2 <= 8 /\ digest_fits sample_capacity 8 = true /\ 0 < 3 /\
  exists u bs r,
    repeated_hashing sample_squeeze sample_capacity 5 8 (3 - 1) shake_256 = ok u /\
    0 <= u /\ encode u = ok bs /\
    repeated_hashing sample_squeeze sample_capacity 5 8 3 shake_256 = ok r /\
    r = from_bytes (digest sample_squeeze shake_256 bs (Z.to_nat (8 / 2))) /\
    0 <= r < 256 ^ (8 / 2).
Proof.
  split; [lia|]. split; [lia|]. split; [reflexivity|]. split; [lia|].
  apply (repeated_hashing_value sample_squeeze sample_capacity 5 8 3 shake_256);
    [lia | lia | reflexivity | lia].
Defined.

Lemma repeated_hashing_negative_witness :
  -5 < 0 /\ 0 < 1 /\
  repeated_hashing sample_squeeze sample_capacity (-5) 8 1 shake_128 = raise OverflowError.
Proof.
  split; [lia|]. split; [lia|].
  apply (repeated_hashing_negative sample_squeeze sample_capacity (-5) 8 1 shake_128); lia.
Defined.

Lemma repeated_hashing_empty_digest_witness :
  0 <= 5 /\ 0 <= 1 < 2 /\ 0 < 2 /\
  repeated_hashing sample_squeeze sample_capacity 5 1 2 shake_256 = raise ValueError.
Proof.
  split; [lia|]. split; [lia|]. split; [lia|].
  apply (repeated_hashing_empty_digest sample_squeeze sample_capacity 5 1 2 shake_256); lia.
Defined.

Lemma sqrt_and_divide_bounds_witness :
  0 <= 1000 /\ 0 < 4 /\
  exists r,
    sqrt_and_divide 1000 4 = ok r /\ 0 <= r /\
    (4 * r) ^ 2 <= 1000 < (4 * (r + 1)) ^ 2.
Proof.
  split; [lia|]. split; [lia|]. apply (sqrt_and_divide_bounds 1000 4); lia.
Defined.

Lemma pass_returns_digest_byte_witness :
  0 <= 1 /\ 2 <= hash1_len cfg_small /\ 2 <= hash2_len cfg_small /\
  2 <= hash4_len cfg_small /\ lengths_fit sample_capacity cfg_small = true /\
  remove_chars cfg_small < 2 * (hash2_len cfg_small / 2) /\ final_div cfg_small <> 0 /\
  exists v' bs w',
    mix sample_tape sample_tape sample_squeeze sample_capacity cfg_small 1 w0 = (ok v', w') /\
    encode v' = ok bs /\
    pass sample_tape sample_tape sample_squeeze sample_capacity cfg_small 1 w0
      = (ok (Z_of_byte (sample_squeeze shake_256 bs
                          (Z.to_nat (Z.min (hash4_len cfg_small / 2) 2048) - 1))), w').
Proof.
  split; [lia|]. split; [simpl; lia|]. split; [simpl; lia|]. split; [simpl; lia|].
  split; [reflexivity|]. split; [reflexivity|]. split; [simpl; lia|].
  apply (pass_returns_digest_byte sample_tape sample_tape sample_squeeze sample_capacity
           cfg_small 1 w0);
    [lia | simpl; lia | simpl; lia | simpl; lia | reflexivity | reflexivity | simpl; lia].
Defined.

Lemma pipeline_draw_count_witness :
  0 <= 1 /\ 0 < loops cfg_small /\ 2 <= hash1_len cfg_small /\
  2 <= hash2_len cfg_small /\ 2 <= hash4_len cfg_small /\
  lengths_fit sample_capacity cfg_small = true /\
  remove_chars cfg_small < 2 * (hash2_len cfg_small / 2) /\ final_div cfg_small <> 0 /\
  exists r w',
    pipeline sample_tape sample_tape sample_squeeze sample_capacity cfg_small 1 w0 = (ok r, w') /\
    Z.of_nat (secure_draws w') =
      Z.of_nat (secure_draws w0)
      + loops cfg_small * (Z.max 0 (mul_times cfg_small) + Z.max 0 (add_times cfg_small)
                           + Z.max 0 (remove_chars cfg_small) + 1) /\
    Z.of_nat (prng_draws w') =
      Z.of_nat (prng_draws w0) + loops cfg_small * (2 * (hash1_len cfg_small / 2) - 1).
Proof.
  split; [lia|]. split; [simpl; lia|]. split; [simpl; lia|]. split; [simpl; lia|].
  split; [simpl; lia|]. split; [reflexivity|]. split; [reflexivity|]. split; [simpl; lia|].
  apply (pipeline_draw_count sample_tape sample_tape sample_squeeze sample_capacity
           cfg_small 1 w0);
    [lia | simpl; lia | simpl; lia | simpl; lia | simpl; lia | reflexivity | reflexivity
     | simpl; lia].
Defined.

Lemma pipeline_returns_iff_witness :
  0 <= 1 /\ 0 < loops cfg_short_digest /\
  ((exists r w',
      pipeline sample_tape sample_tape sample_squeeze sample_capacity cfg_short_digest 1 w0 = (ok r, w')) <->
   (2 <= hash1_len cfg_short_digest /\ 2 <= hash2_len cfg_short_digest /\
    2 <= hash4_len cfg_short_digest /\
    lengths_fit sample_capacity cfg_short_digest = true /\
    remove_chars cfg_short_digest < 2 * (hash2_len cfg_short_digest / 2) /\
    final_div cfg_short_digest <> 0)).
Proof.
  split; [lia|]. split; [simpl; lia|].
  apply (pipeline_returns_iff sample_tape sample_tape sample_squeeze sample_capacity cfg_short_digest 1 w0);
    [lia | simpl; lia].
Defined.

Lemma pipeline_error_kinds_witness :
  0 <= 1 /\
  pipeline sample_tape sample_tape sample_squeeze sample_capacity cfg_zero_div 1 w0
    = (raise ZeroDivisionError, {| secure_draws := 4; prng_draws := 7 |}) /\
  (ZeroDivisionError = ValueError \/
   (ZeroDivisionError = ZeroDivisionError /\ final_div cfg_zero_div = 0) \/
   ((ZeroDivisionError = OverflowError \/ ZeroDivisionError = MemoryError) /\
    (~ (0 <= hash1_len cfg_zero_div /\
        digest_fits sample_capacity (hash1_len cfg_zero_div) = true) \/
     ~ (0 <= hash2_len cfg_zero_div /\
        digest_fits sample_capacity (hash2_len cfg_zero_div) = true) \/
     ~ (0 <= hash4_len cfg_zero_div /\
        digest_fits sample_capacity (hash4_len cfg_zero_div) = true)))).
Proof.
  split; [lia|]. split; [vm_compute; reflexivity|].
  apply (pipeline_error_kinds sample_tape sample_tape sample_squeeze sample_capacity
           cfg_zero_div 1 w0 ZeroDivisionError {| secure_draws := 4; prng_draws := 7 |});
    [lia | vm_compute; reflexivity].
Defined.

Lemma pipeline_negative_seed_witness :
  -7 < 0 /\ add_times cfg_no_add <= 0 /\ 0 < loops cfg_no_add /\
  pipeline sample_tape sample_tape sample_squeeze sample_capacity cfg_no_add (-7) w0
    = (raise OverflowError, advance (Z.to_nat (mul_times cfg_no_add)) 0 w0).
Proof.
  split; [lia|]. split; [simpl; lia|]. split; [simpl; lia|].
  apply (pipeline_negative_seed sample_tape sample_tape sample_squeeze sample_capacity cfg_no_add (-7) w0);
    [lia | simpl; lia | simpl; lia].
Defined.

Lemma pipeline_loops_compose_witness :
  0 <= 1 /\ 0 <= 2 /\
  pipeline sample_tape sample_tape sample_squeeze sample_capacity (with_loops (1 + 2) cfg_small) 1 w0
    = (let* x := pipeline sample_tape sample_tape sample_squeeze sample_capacity (with_loops 1 cfg_small) 1
       in pipeline sample_tape sample_tape sample_squeeze sample_capacity (with_loops 2 cfg_small) x)%pipe w0.
Proof.
  split; [lia|]. split; [lia|].
  apply (pipeline_loops_compose sample_tape sample_tape sample_squeeze sample_capacity cfg_small 1 2 1 w0);
    lia.
Defined.

Lemma shuffle_and_rehash_short_digest_witness :
  forallb is_lower_hex ["a"; "7"; "0"; "f"]%char = true /\
  len ["a"; "7"; "0"; "f"]%char = 2 * 2 /\
  2 <= hash2_len cfg_small /\ digest_fits sample_capacity (hash2_len cfg_small) = true /\
  2 <= hash2_len cfg_small /\
  exists shuffled bs h5 v,
    shuffle_string sample_tape ["a"; "7"; "0"; "f"]%char w0
      = (ok shuffled, advance 0 (length ["a"; "7"; "0"; "f"]%char - 1) w0) /\
    slice_to (hash2_len cfg_small * 2) shuffled = shuffled /\
    fromhex shuffled = ok bs /\ len bs = 2 /\
    shake_hash sample_squeeze sample_capacity bs (hash2_len cfg_small) shake_128 = ok h5 /\
    len h5 = 2 * (hash2_len cfg_small / 2) /\
    shuffle_and_rehash sample_tape sample_squeeze sample_capacity cfg_small ["a"; "7"; "0"; "f"]%char w0
      = (ok (h5, v), advance 0 (length ["a"; "7"; "0"; "f"]%char - 1) w0).
Proof.
  split; [reflexivity|]. split; [reflexivity|]. split; [simpl; lia|].
  split; [reflexivity|]. split; [simpl; lia|].
  apply (shuffle_and_rehash_short_digest sample_tape sample_squeeze sample_capacity cfg_small
           ["a"; "7"; "0"; "f"]%char 2 w0);
    [reflexivity | reflexivity | simpl; lia | reflexivity | simpl; lia].
Defined.

Lemma get_random_seed_rejects_witness :
  ({[ "key"%string := JStr "letmein" ]} : gmap string json) !! "key"%string
    <> Some (JStr API_KEY) /\
  get_random_seed sample_tape {[ "key"%string := JStr "letmein" ]} w0
    = (ok (inl {| status_code := 403; detail := "Invalid API key" |}), w0).
Proof.
  assert (({[ "key"%string := JStr "letmein" ]} : gmap string json) !! "key"%string
          <> Some (JStr API_KEY)) as H
    by (vm_compute; discriminate).
  split; [exact H|].
  apply (get_random_seed_rejects sample_tape {[ "key"%string := JStr "letmein" ]} w0 H).
Defined.

Lemma get_random_seed_grants_witness :
  ({[ "key"%string := JStr "RANDOM_NUM" ]} : gmap string json) !! "key"%string
    = Some (JStr API_KEY) /\
  exists r,
    get_random_seed sample_tape {[ "key"%string := JStr "RANDOM_NUM" ]} w0
      = (ok (inr {[ "random_value"%string := JNum r ]}), advance 1 0 w0) /\
    0 <= r < 2 ^ 64.
Proof.
  split; [vm_compute; reflexivity|].
  apply (get_random_seed_grants sample_tape {[ "key"%string := JStr "RANDOM_NUM" ]} w0).
  vm_compute; reflexivity.
Defined.
